(** * PatchTrap: a shallow embedding of [PatchTrap.py]

    The development follows the source file top to bottom: the helpers
    ([_fingerprint_callable], [_resolve_dotted]), then the [PatchTrap]
    class ([__init__], [seal], [_scan_once], [run]), and finally the
    properties of the specification, stated over these definitions.

    Modelling conventions.
    - Python objects live in a heap indexed by references; an attribute
      dictionary maps names to references, so that two dotted names can
      reach the same binding and a [setattr] is seen through every path.
    - A [str] is a [string]; [str.encode()] is the identity on it, so the
      model covers strings whose characters are single bytes.
    - An exception is a value of [exn]; code that can raise returns a
      [result].  [try]/[except] is a [match] on the result.
    - [hashlib.sha256] and [os.path.abspath] are library functions; they
      are section variables.
    - [time.time()] readings are rational numbers supplied by the caller. *)

From Stdlib Require Import Ascii String QArith Qround.
From stdpp Require Import functions gmap strings list sorting pretty.

Local Open Scope string_scope.
Local Open Scope list_scope.

(** ** Exceptions and fallible computations *)

Inductive exn :=
| ValueError (msg : string)
| ModuleNotFoundError (name : string)
| AttributeError (type_name attr : string)
| KeyError (key : string)
| PyException (r : string).

Inductive result (A : Type) :=
| Ok (a : A)
| Raise (e : exn).
Arguments Ok {A} a.
Arguments Raise {A} e.

Definition bind {A B} (r : result A) (k : A -> result B) : result B :=
  match r with
  | Ok a => k a
  | Raise e => Raise e
  end.

Notation "x <- r ;; k" := (bind r (fun x => k))
  (at level 100, r at next level, right associativity).

(** ** String helpers: [s[:n]], [s.split(".")], [s.split()] *)

Definition str_take (n : nat) (s : string) : string := String.substring 0 n s.

Fixpoint str_split (sep : ascii) (s : string) : list string :=
  match s with
  | EmptyString => [EmptyString]
  | String c s' =>
      if Ascii.eqb c sep then EmptyString :: str_split sep s'
      else match str_split sep s' with
           | [] => [String c EmptyString]
           | p :: ps => String c p :: ps
           end
  end.

Definition is_space (c : ascii) : bool :=
  let n := nat_of_ascii c in
  (((9 <=? n) && (n <=? 13)) || ((28 <=? n) && (n <=? 32)))%nat.

(** [split_ws cur s] scans [s] with the pending word [cur] (reversed
    accumulation is avoided by appending); empty words are dropped, as
    [str.split()] without a separator does. *)
Fixpoint split_ws (cur : string) (s : string) : list string :=
  match s with
  | EmptyString => if String.eqb cur "" then [] else [cur]
  | String c s' =>
      if is_space c then
        (if String.eqb cur "" then split_ws "" s' else cur :: split_ws "" s')
      else split_ws (cur +:+ String c EmptyString) s'
  end.

(** [s.strip()]: whitespace removed at both ends *)
Fixpoint lstrip (s : string) : string :=
  match s with
  | EmptyString => EmptyString
  | String c s' => if is_space c then lstrip s' else s
  end.

Fixpoint rstrip (s : string) : string :=
  match s with
  | EmptyString => EmptyString
  | String c s' =>
      match rstrip s' with
      | EmptyString => if is_space c then EmptyString else String c EmptyString
      | r => String c r
      end
  end.

Definition strip (s : string) : string := rstrip (lstrip s).

(** [c in s] *)
Fixpoint contains (c : ascii) (s : string) : bool :=
  match s with
  | EmptyString => false
  | String c' s' => Ascii.eqb c' c || contains c s'
  end.

(** [[x.strip() for x in watch.split(",") if x.strip()]] *)
Definition parse_watch (watch : string) : list string :=
  List.map strip
    (List.filter (fun x => negb (String.eqb (strip x) ""))
                 (str_split "," watch)).

(** ** [repr] of strings and exceptions *)

Definition dquote : ascii := ascii_of_nat 34.
Definition backslash : ascii := ascii_of_nat 92.

Definition hex_char (n : nat) : ascii :=
  ascii_of_nat (if (n <? 10)%nat then 48 + n else 87 + n).

(** One character inside [repr(s)], for the quote chosen. *)
Definition py_escape (quote c : ascii) : string :=
  let n := nat_of_ascii c in
  if Ascii.eqb c quote || Ascii.eqb c backslash then
    String backslash (String c EmptyString)
  else if (n =? 9)%nat then String backslash "t"
  else if (n =? 10)%nat then String backslash "n"
  else if (n =? 13)%nat then String backslash "r"
  else if (n <? 32)%nat || (n =? 127)%nat then
    String backslash
      (String "x" (String (hex_char (n / 16))
                     (String (hex_char (n mod 16)) EmptyString)))
  else String c EmptyString.

Fixpoint py_escape_all (quote : ascii) (s : string) : string :=
  match s with
  | EmptyString => EmptyString
  | String c s' => py_escape quote c +:+ py_escape_all quote s'
  end.

(** [repr(s)] of a [str]: single quotes, unless the string has a
    single quote and no double quote. *)
Definition py_repr (s : string) : string :=
  let quote := if contains "'" s && negb (contains dquote s)
               then dquote else "'"%char in
  String quote (py_escape_all quote s +:+ String quote EmptyString).

(** [repr(e)] for the exceptions the harness can see.  [PyException]
    stands for any other [Exception] instance and carries its repr.
    The message of an [AttributeError] is the one [getattr] gives for
    an instance; for a module or a class CPython names the module or
    the class instead of the type, which the value here does not
    carry. *)
Definition repr_exn (e : exn) : string :=
  match e with
  | ValueError msg => "ValueError(" +:+ py_repr msg +:+ ")"
  | ModuleNotFoundError name =>
      "ModuleNotFoundError("
        +:+ py_repr ("No module named " +:+ py_repr name) +:+ ")"
  | AttributeError ty attr =>
      "AttributeError("
        +:+ py_repr ("'" +:+ ty +:+ "' object has no attribute '"
                       +:+ attr +:+ "'") +:+ ")"
  | KeyError key => "KeyError(" +:+ py_repr key +:+ ")"
  | PyException r => r
  end.

(** ** Objects and the heap *)

Abbreviation ref := positive.

(** The fields of a code object that the fingerprint reads.  [co_code]
    is the byte string itself; the others hold [repr(...)] of the field,
    which is all the source uses. *)
Record code := {
  co_code : string;
  co_consts : string;
  co_names : string;
  co_varnames : string;
  co_filename : string;
  co_firstlineno : string;
}.

(** What the tests at the head of [_fingerprint_callable] can tell apart.
    A bound method forwards [__code__] to the wrapped callable, which may
    not have one. *)
Inductive pykind :=
| PyFunction (c : code)
| PyMethod (c : result code)
| PyBuiltin
| PyCallable
| PyPlain.

Record object := {
  ob_kind : pykind;
  ob_class_name : string;
  ob_class_module : string;
  ob_class_qualname : string;
  ob_module : option string;
  ob_qualname : option string;
  ob_name : option string;
  ob_repr : result string;
  ob_attrs : gmap string ref;
  ob_setattr_error : option exn;
}.

(** [type(obj).__name__] *)
Definition type_name (o : object) : string :=
  match ob_kind o with
  | PyFunction _ => "function"
  | PyMethod _ => "method"
  | PyBuiltin => "builtin_function_or_method"
  | PyCallable | PyPlain => ob_class_name o
  end.

(** The process state the harness reads.  [sys.meta_path] (by the type
    names of its hooks), [os.environ] and [sys.argv] are kept beside the
    heap: the model covers watch lists whose names do not lead to these
    three objects themselves, so that a restore never rebinds them. *)
Record world := {
  heap : ref -> object;
  modules : gmap string ref;
  meta_path : list string;
  environ : gmap string string;
  argv : list string;
}.

Definition set_heap (h : ref -> object) (w : world) : world :=
  {| heap := h; modules := modules w; meta_path := meta_path w;
     environ := environ w; argv := argv w |}.

Definition set_argv (a : list string) (w : world) : world :=
  {| heap := heap w; modules := modules w; meta_path := meta_path w;
     environ := environ w; argv := a |}.

(** [getattr(obj, a)] and [setattr(obj, a, v)] on the object's own
    attribute dictionary.  The model covers objects whose attributes
    are found there (modules, namespaces, classes without inherited
    members on a watched path) and attribute names other than the
    special ones the fingerprint reads through the other fields
    ([__code__], [__module__], [__qualname__], [__name__]): an
    assignment changes one slot of one dictionary and nothing else. *)
Definition getattr (h : ref -> object) (r : ref) (a : string) : result ref :=
  match ob_attrs (h r) !! a with
  | Some v => Ok v
  | None => Raise (AttributeError (type_name (h r)) a)
  end.

Definition with_attr (a : string) (v : ref) (o : object) : object :=
  {| ob_kind := ob_kind o; ob_class_name := ob_class_name o;
     ob_class_module := ob_class_module o;
     ob_class_qualname := ob_class_qualname o;
     ob_module := ob_module o; ob_qualname := ob_qualname o;
     ob_name := ob_name o; ob_repr := ob_repr o;
     ob_attrs := <[a := v]> (ob_attrs o);
     ob_setattr_error := ob_setattr_error o |}.

Definition setattr (h : ref -> object) (r : ref) (a : string) (v : ref)
  : result (ref -> object) :=
  match ob_setattr_error (h r) with
  | Some e => Raise e
  | None => Ok (<[r := with_attr a v (h r)]> h)
  end.

(** [importlib.import_module(name)].  [modules w] holds the names the
    call returns a module for (loaded or loadable, the import being
    idempotent); the empty name is never one of them, the call rejects
    it with [ValueError].  Any other name that is not there is not
    found. *)
Definition import_module (w : world) (name : string) : result ref :=
  match modules w !! name with
  | Some m => Ok m
  | None =>
      if String.eqb name "" then Raise (ValueError "Empty module name")
      else Raise (ModuleNotFoundError name)
  end.

(** ** Fingerprints *)

Record fingerprint := {
  fp_type : string;
  fp_hash : string;
  fp_where : string;
}.

Inductive category :=
| InterpretedUnit
| OpaqueNative
| GenericCallable
| NonCallable
| FingerprintError.

Definition join_payload (c : code) : string :=
  co_code c +:+ "||" +:+ co_consts c +:+ "||" +:+ co_names c +:+ "||"
    +:+ co_varnames c +:+ "||" +:+ co_filename c +:+ "||" +:+ co_firstlineno c.

(** [getattr(obj, '__qualname__', getattr(obj, '__name__', ''))] *)
Definition qualname_or_name (o : object) : string :=
  match ob_qualname o with
  | Some q => q
  | None => default "" (ob_name o)
  end.

(** [obj.__module__], raising when the attribute is absent *)
Definition module_attr (o : object) : result string :=
  match ob_module o with
  | Some m => Ok m
  | None => Raise (AttributeError (type_name o) "__module__")
  end.

(** The body of the [try] block: the branch taken, the string handed to
    [_sha256_bytes], and the [where] label. *)
Definition fingerprint_try (o : object) : result (category * string * string) :=
  match ob_kind o with
  | PyFunction c =>
      m <- module_attr o ;;
      Ok (InterpretedUnit, join_payload c, m +:+ "." +:+ qualname_or_name o)
  | PyMethod rc =>
      c <- rc ;;
      m <- module_attr o ;;
      Ok (InterpretedUnit, join_payload c, m +:+ "." +:+ qualname_or_name o)
  | PyBuiltin =>
      r <- ob_repr o ;;
      let tag := default "" (ob_module o) +:+ ":" +:+ qualname_or_name o
                   +:+ ":" +:+ str_take 80 r in
      Ok (OpaqueNative, tag, tag)
  | PyCallable =>
      r <- ob_repr o ;;
      let tag := ob_class_module o +:+ "." +:+ ob_class_qualname o
                   +:+ ":" +:+ str_take 80 r in
      Ok (GenericCallable, tag, tag)
  | PyPlain =>
      r <- ob_repr o ;;
      let tag := "not-callable:" +:+ str_take 80 r in
      Ok (NonCallable, tag, tag)
  end.

(** The whole function with its [except Exception] handler, before
    hashing: category, hashed string, [where]. *)
Definition fingerprint_parts (o : object) : category * string * string :=
  match fingerprint_try o with
  | Ok p => p
  | Raise e =>
      let tag := "error:" +:+ type_name o +:+ ":" +:+ str_take 60 (repr_exn e) in
      (FingerprintError, tag, tag)
  end.

Definition classify (o : object) : category := (fingerprint_parts o).1.1.
Definition hashed_string (o : object) : string := (fingerprint_parts o).1.2.

(** ** [_resolve_dotted] *)

(** The [for p in parts[1:-1]] loop. *)
Fixpoint walk (h : ref -> object) (obj : ref) (ps : list string) : result ref :=
  match ps with
  | [] => Ok obj
  | p :: ps' => o <- getattr h obj p ;; walk h o ps'
  end.

(** The provenance label of the container. *)
Definition container_label (o : object) : result string :=
  match ob_module o with
  | Some m => Ok (m +:+ "." +:+ default (type_name o) (ob_qualname o))
  | None => ob_repr o
  end.

Definition _resolve_dotted (w : world) (name : string)
  : result (ref * ref * string * string) :=
  match str_split "." name with
  | module_name :: (_ :: _) as rest =>
      mod_ <- import_module w module_name ;;
      obj <- walk (heap w) mod_ (removelast rest) ;;
      let attr := List.last rest "" in
      val <- getattr (heap w) obj attr ;;
      container_qual <- container_label (heap w obj) ;;
      Ok (obj, val, container_qual, attr)
  | _ => Raise (ValueError ("invalid dotted name: " +:+ name))
  end.

(** ** Alerts, baseline and the guard object *)

Inductive alert :=
| ResolveError (target error : string)
| Replaced (target : string) (before after : fingerprint)
| RestoreOk (target : string)
| RestoreFail (target error : string)
| MetaPathChanged (before after : list string)
| EnvChanged (added removed : gmap string string)
             (changed : gmap string (string * string))
| ExceptionAlert (error : string).

Record baseline_entry := {
  be_fp : fingerprint;
  be_container : string;
  be_attr : string;
}.

Record run_report := {
  duration_sec : Q;
  rep_auto_restore : bool;
  rep_targets : list string;
  rep_alerts : list alert;
}.

Record PatchTrap := {
  targets : list string;
  auto_restore : bool;
  interval : Q;
  baseline : gmap string baseline_entry;
  originals : gmap string ref;
  meta_path0 : list string;
  env0 : gmap string string;
  alerts : list alert;
  report : option run_report;
}.

(** [max(0.0, float(interval))] *)
Definition clamp_interval (i : Q) : Q := if Qlt_le_dec 0 i then i else 0%Q.

Definition __init__ (w : world) (ts : list string) (ar : bool) (i : Q) : PatchTrap :=
  {| targets := ts; auto_restore := ar; interval := clamp_interval i;
     baseline := ∅; originals := ∅;
     meta_path0 := meta_path w; env0 := environ w;
     alerts := []; report := None |}.

(** [self.alerts.append(a)] *)
Definition append_alert (a : alert) (s : PatchTrap) : PatchTrap :=
  {| targets := targets s; auto_restore := auto_restore s;
     interval := interval s; baseline := baseline s;
     originals := originals s; meta_path0 := meta_path0 s; env0 := env0 s;
     alerts := alerts s ++ [a]; report := report s |}.

(** [self.originals[d] = val; self.baseline[d] = e] *)
Definition store_baseline (d : string) (val : ref) (e : baseline_entry)
    (s : PatchTrap) : PatchTrap :=
  {| targets := targets s; auto_restore := auto_restore s;
     interval := interval s; baseline := <[d := e]> (baseline s);
     originals := <[d := val]> (originals s);
     meta_path0 := meta_path0 s; env0 := env0 s;
     alerts := alerts s; report := report s |}.

Definition set_report (r : run_report) (s : PatchTrap) : PatchTrap :=
  {| targets := targets s; auto_restore := auto_restore s;
     interval := interval s; baseline := baseline s;
     originals := originals s; meta_path0 := meta_path0 s; env0 := env0 s;
     alerts := alerts s; report := Some r |}.

(** [self.originals[dotted]] *)
Definition original_of (s : PatchTrap) (d : string) : result ref :=
  match originals s !! d with
  | Some v => Ok v
  | None => Raise (KeyError d)
  end.

(** ** Environment diff *)

Definition str_le (a b : string) : Prop := String.leb a b = true.

#[global] Instance str_le_dec a b : Decision (str_le a b).
Proof. unfold str_le. apply _. Defined.

(** [sorted(...)] on strings *)
Definition sorted (ks : list string) : list string := merge_sort str_le ks.

Definition added_keys (env_now env_0 : gmap string string) : list string :=
  sorted (elements (dom env_now ∖ dom env_0)).

Definition removed_keys (env_now env_0 : gmap string string) : list string :=
  sorted (elements (dom env_0 ∖ dom env_now)).

Definition changed_keys (env_now env_0 : gmap string string) : list string :=
  sorted (filter (λ k, env_now !! k ≠ env_0 !! k)
                 (elements (dom env_now ∩ dom env_0))).

(** [{k: f(k) for k in ks}] *)
Definition dict_of {V} (f : string -> V) (ks : list string) : gmap string V :=
  list_to_map ((λ k, (k, f k)) <$> ks).

Definition env_alert (env_now env_0 : gmap string string) : option alert :=
  let added := added_keys env_now env_0 in
  let removed := removed_keys env_now env_0 in
  let changed := changed_keys env_now env_0 in
  match added, removed, changed with
  | [], [], [] => None
  | _, _, _ =>
      Some (EnvChanged
              (dict_of (λ k, env_now !!! k) added)
              (dict_of (λ k, env_0 !!! k) removed)
              (dict_of (λ k, (env_0 !!! k, env_now !!! k)) changed))
  end.

(** ** The guarded program and the events of a run *)

(** The argument of [SystemExit]: [None], an integer, or any other
    object, of which the handler only uses the truth value and the
    result of [int(...)]. *)
Inductive exit_payload :=
| ExitNone
| ExitInt (n : Z)
| ExitObject (truthy : bool) (as_int : result Z).

(** How [runpy.run_path] ends: it returns, raises [SystemExit], raises
    an [Exception], or raises another [BaseException]. *)
Inductive outcome :=
| Completed
| SystemExit (code : exit_payload)
| Failed (e : exn)
| Interrupted (r : string).

Inductive event :=
| Print (line : string)
| ScanOnce
| RunPath (path run_name : string)
| Sleep (secs : Q)
| JsonDump (file : string) (r : run_report) (indent : nat) (sort_keys : bool).

(** What [run] gives its caller: a return code or an exception. *)
Inductive run_result :=
| Returns (rc : Z)
| Raises (r : string).

(** What a call of [run] leaves behind. *)
Record run_end := {
  end_world : world;
  end_guard : PatchTrap;
  end_events : list event;
  end_result : run_result;
}.

(** [int(getattr(e, "code", 0) or 0)] *)
Definition exit_status (code : exit_payload) : result Z :=
  match code with
  | ExitNone => Ok 0%Z
  | ExitInt n => Ok n
  | ExitObject truthy as_int => if truthy then as_int else Ok 0%Z
  end.

(** [round(x, 3)]: to the nearest multiple of 1/1000, ties to even. *)
Definition round_half_even (q : Q) : Z :=
  let f := Qfloor q in
  match Qcompare (q - inject_Z f) (1 # 2) with
  | Lt => f
  | Gt => (f + 1)%Z
  | Eq => if Z.even f then f else (f + 1)%Z
  end.

Definition round3 (q : Q) : Q := Qmake (round_half_even (q * 1000)) 1000.

(** The namespace [argparse] hands to [main] for the [run] command. *)
Record cli_args := {
  arg_target : string;
  arg_args : string;
  arg_watch : string;
  arg_auto_restore : Z;
  arg_interval : Q;
}.

(** How the process ends: [sys.exit(rc)], or an exception that nothing
    catches. *)
Inductive main_result :=
| Exit (rc : Z)
| Crash (r : string).

Record main_end := {
  main_world : world;
  main_guard : PatchTrap;
  main_events : list event;
  main_exit : main_result;
}.

Section PatchTrap.

Variable sha256 : string -> string.
Variable abspath : string -> string.
Variable run_path : string -> world -> world * outcome.

Definition _sha256_bytes (b : string) : string := sha256 b.

Definition _fingerprint_callable (o : object) : fingerprint :=
  let '(_, payload, wh) := fingerprint_parts o in
  {| fp_type := type_name o; fp_hash := _sha256_bytes payload; fp_where := wh |}.

(** ** [seal] *)

(** The loop of [seal].  The guard object is updated in place, so when a
    resolution raises the entries stored so far stay; the exception is
    returned next to the state it leaves behind. *)
Fixpoint seal_loop (w : world) (ts : list string) (s : PatchTrap)
  : PatchTrap * option exn :=
  match ts with
  | [] => (s, None)
  | dotted :: ts' =>
      match _resolve_dotted w dotted with
      | Raise e => (s, Some e)
      | Ok (container, val, container_qual, attr) =>
          seal_loop w ts'
            (store_baseline dotted val
               {| be_fp := _fingerprint_callable (heap w val);
                  be_container := container_qual;
                  be_attr := attr |} s)
      end
  end.

Definition seal (w : world) (s : PatchTrap) : PatchTrap * option exn :=
  seal_loop w (targets s) s.

(** ** [_scan_once] *)

(** The [try: setattr(...)] block of the auto-restore. *)
Definition restore (w : world) (s : PatchTrap) (dotted : string)
    (container : ref) (attr : string) : world * PatchTrap :=
  match (orig <- original_of s dotted ;;
         setattr (heap w) container attr orig) with
  | Ok h' => (set_heap h' w, append_alert (RestoreOk dotted) s)
  | Raise e => (w, append_alert (RestoreFail dotted (repr_exn e)) s)
  end.

(** One iteration of the loop over [self.targets]. *)
Definition scan_target (ws : world * PatchTrap) (dotted : string)
  : world * PatchTrap :=
  let '(w, s) := ws in
  match _resolve_dotted w dotted with
  | Raise e => (w, append_alert (ResolveError dotted (repr_exn e)) s)
  | Ok (container, current, container_qual, attr) =>
      match baseline s !! dotted with
      | None => (w, s)
      | Some base =>
          let fp_now := _fingerprint_callable (heap w current) in
          if negb (String.eqb (fp_hash fp_now) (fp_hash (be_fp base))) then
            let s1 := append_alert (Replaced dotted (be_fp base) fp_now) s in
            if auto_restore s1 then restore w s1 dotted container attr
            else (w, s1)
          else (w, s)
      end
  end.

Definition scan_targets (ws : world * PatchTrap) (ts : list string)
  : world * PatchTrap :=
  foldl scan_target ws ts.

Definition scan_meta_path (w : world) (s : PatchTrap) : PatchTrap :=
  if decide (meta_path w = meta_path0 s) then s
  else append_alert (MetaPathChanged (meta_path0 s) (meta_path w)) s.

Definition scan_env (w : world) (s : PatchTrap) : PatchTrap :=
  match env_alert (environ w) (env0 s) with
  | Some a => append_alert a s
  | None => s
  end.

Definition _scan_once (w : world) (s : PatchTrap) : world * PatchTrap :=
  let '(w1, s1) := scan_targets (w, s) (targets s) in
  let s2 := scan_meta_path w1 s1 in
  (w1, scan_env w1 s2).

(** ** [run] *)

Definition sealed_line (s : PatchTrap) : string :=
  "[patchtrap] sealed " +:+ pretty (length (targets s))
    +:+ " targets, meta_path=ok, env=baseline saved".

(** The body of the [try] block after the two opening prints.  The
    outcome is [Completed] when the block ran to its end. *)
Definition run_try (w : world) (s : PatchTrap) (target_path : string)
  : world * PatchTrap * list event * outcome :=
  if Qlt_le_dec 0 (interval s) then
    let '(wa, sa) := _scan_once w s in
    let '(wb, o) := run_path target_path wa in
    match o with
    | Completed =>
        let '(wc, sc) := _scan_once wb sa in
        (wc, sc,
         [ScanOnce; RunPath target_path "__main__"; Sleep (interval s);
          ScanOnce; Print "[patchtrap] run end: status=ok"],
         Completed)
    | _ => (wb, sa, [ScanOnce; RunPath target_path "__main__"], o)
    end
  else
    let '(wb, o) := run_path target_path w in
    match o with
    | Completed =>
        let '(wc, sc) := _scan_once wb s in
        (wc, sc,
         [RunPath target_path "__main__"; ScanOnce;
          Print "[patchtrap] run end: status=ok"],
         Completed)
    | _ => (wb, s, [RunPath target_path "__main__"], o)
    end.

(** The [except] clauses: new state, events, and what leaves the
    [try] statement. *)
Definition run_except (s : PatchTrap) (o : outcome)
  : PatchTrap * list event * run_result :=
  match o with
  | Completed => (s, [], Returns 0)
  | SystemExit code =>
      match exit_status code with
      | Ok rc =>
          (s, [Print ("[patchtrap] run end: SystemExit(" +:+ pretty rc +:+ ")")],
           Returns rc)
      | Raise e => (s, [], Raises (repr_exn e))
      end
  | Failed e =>
      (append_alert (ExceptionAlert (repr_exn e)) s,
       [Print "[patchtrap] run end: status=exception"], Returns 1)
  | Interrupted r => (s, [], Raises r)
  end.

(** [[target_path] + (args_line.split() if args_line else [])] *)
Definition guest_argv (target_path args_line : string) : list string :=
  target_path :: (if String.eqb args_line "" then [] else split_ws "" args_line).

Definition run (w : world) (s : PatchTrap) (target_path args_line : string)
    (t_start t_end : Q) : run_end :=
  let old_argv := argv w in
  let w0 := set_argv (guest_argv target_path args_line) w in
  let start := t_start in
  let '(w1, s1, ev_try, o) := run_try w0 s target_path in
  let '(s2, ev_exc, res) := run_except s1 o in
  let w2 := set_argv old_argv w1 in
  let dur := round3 (t_end - start) in
  let rep := {| duration_sec := dur; rep_auto_restore := auto_restore s2;
                rep_targets := targets s2; rep_alerts := alerts s2 |} in
  let s3 := set_report rep s2 in
  {| end_world := w2; end_guard := s3;
     end_events :=
       [Print (sealed_line s);
        Print ("[patchtrap] run begin: " +:+ abspath target_path)]
         ++ ev_try ++ ev_exc
         ++ [JsonDump "patchtrap_report.json" rep 2 true;
             Print "[patchtrap] report saved: patchtrap_report.json"];
     end_result := res |}.

(** The process state in which the guarded program is started, and how
    the program ends from there. *)
Definition entry_world (w : world) (s : PatchTrap)
    (target_path args_line : string) : world :=
  let w0 := set_argv (guest_argv target_path args_line) w in
  if Qlt_le_dec 0 (interval s) then (_scan_once w0 s).1 else w0.

Definition program_outcome (w : world) (s : PatchTrap)
    (target_path args_line : string) : outcome :=
  (run_path target_path (entry_world w s target_path args_line)).2.

(** ** [main], after [parse_args] *)

Definition main (w : world) (a : cli_args) (t_start t_end : Q) : main_end :=
  let targets := parse_watch (arg_watch a) in
  let guard := __init__ w targets (negb (Z.eqb (arg_auto_restore a) 0))
                 (arg_interval a) in
  match seal w guard with
  | (g, Some e) =>
      {| main_world := w; main_guard := g; main_events := [];
         main_exit := Crash (repr_exn e) |}
  | (g, None) =>
      let r := run w g (arg_target a) (arg_args a) t_start t_end in
      {| main_world := end_world r; main_guard := end_guard r;
         main_events := end_events r;
         main_exit := match end_result r with
                      | Returns rc => Exit rc
                      | Raises x => Crash x
                      end |}
  end.

End PatchTrap.

(** ** SHA-256

    [hashlib.sha256(b).hexdigest()], used to run the model on concrete
    inputs.  The properties below are proved for an arbitrary digest. *)

Module SHA256.

Local Open Scope Z_scope.
Local Open Scope list_scope.

Definition wrap (x : Z) : Z := Z.land x 0xffffffff.
Definition add32 (a b : Z) : Z := wrap (a + b).
Definition rotr (n x : Z) : Z :=
  Z.lor (Z.shiftr x n) (wrap (Z.shiftl x (32 - n))).
Definition not32 (x : Z) : Z := Z.lxor x 0xffffffff.

Definition Ch (x y z : Z) : Z := Z.lxor (Z.land x y) (Z.land (not32 x) z).
Definition Maj (x y z : Z) : Z :=
  Z.lxor (Z.lxor (Z.land x y) (Z.land x z)) (Z.land y z).
Definition Sigma0 (x : Z) : Z := Z.lxor (Z.lxor (rotr 2 x) (rotr 13 x)) (rotr 22 x).
Definition Sigma1 (x : Z) : Z := Z.lxor (Z.lxor (rotr 6 x) (rotr 11 x)) (rotr 25 x).
Definition sigma0 (x : Z) : Z := Z.lxor (Z.lxor (rotr 7 x) (rotr 18 x)) (Z.shiftr x 3).
Definition sigma1 (x : Z) : Z := Z.lxor (Z.lxor (rotr 17 x) (rotr 19 x)) (Z.shiftr x 10).

(** The round constants and the initial state are the first 32 bits of
    the fractional parts of the cube roots of the first 64 primes and of
    the square roots of the first 8; they are computed from that
    description. *)
Definition is_prime (n : nat) : bool :=
  forallb (fun d => negb (Nat.eqb (n mod d) 0)) (seq 2 (n - 2)).

Definition primes : list Z := map Z.of_nat (filter is_prime (seq 2 310)).

(** the largest [r] below [2 ^ bits] with [r ^ k <= n] *)
Fixpoint int_root (k n : Z) (bits : nat) (r : Z) : Z :=
  match bits with
  | O => r
  | S b =>
      let r' := r + 2 ^ Z.of_nat b in
      int_root k n b (if r' ^ k <=? n then r' else r)
  end.

Definition frac_root (k p : Z) : Z := wrap (int_root k (p * 2 ^ (32 * k)) 40 0).

Definition K : list Z := Eval vm_compute in map (frac_root 3) primes.

Definition H0 : list Z := Eval vm_compute in map (frac_root 2) (firstn 8 primes).

Definition bytes_of (s : string) : list Z :=
  map (fun c => Z.of_nat (nat_of_ascii c)) (list_ascii_of_string s).

(** big-endian bytes of [x], [n] of them *)
Fixpoint be_bytes (n : nat) (x : Z) : list Z :=
  match n with
  | O => []
  | S n' => be_bytes n' (Z.shiftr x 8) ++ [Z.land x 0xff]
  end.

Definition pad (msg : list Z) : list Z :=
  let len := Z.of_nat (length msg) in
  let zeros := Z.to_nat ((55 - len) mod 64) in
  msg ++ [0x80] ++ repeat 0 zeros ++ be_bytes 8 (8 * len).

Fixpoint words (fuel : nat) (bs : list Z) : list Z :=
  match fuel, bs with
  | S f, a :: b :: c :: d :: rest =>
      (Z.shiftl a 24 + Z.shiftl b 16 + Z.shiftl c 8 + d) :: words f rest
  | _, _ => []
  end.

Fixpoint blocks (fuel : nat) (ws : list Z) : list (list Z) :=
  match fuel, ws with
  | S f, _ :: _ => firstn 16 ws :: blocks f (skipn 16 ws)
  | _, _ => []
  end.

(** the message schedule: [w] holds the words so far, oldest first *)
Fixpoint schedule (n : nat) (w : list Z) : list Z :=
  match n with
  | O => w
  | S n' =>
      let i := length w in
      let at_ k := nth (i - k) w 0 in
      schedule n' (w ++ [add32 (add32 (sigma1 (at_ 2%nat)) (at_ 7%nat))
                               (add32 (sigma0 (at_ 15%nat)) (at_ 16%nat))])
  end.

Definition round (st : list Z) (kw : Z * Z) : list Z :=
  match st with
  | [a; b; c; d; e; f; g; h] =>
      let t1 := add32 (add32 (add32 h (Sigma1 e)) (add32 (Ch e f g) (fst kw))) (snd kw) in
      let t2 := add32 (Sigma0 a) (Maj a b c) in
      [add32 t1 t2; a; b; c; add32 d t1; e; f; g]
  | _ => st
  end.

Definition compress (h : list Z) (block : list Z) : list Z :=
  let w := schedule 48 block in
  let st := fold_left round (combine K w) h in
  map (fun p => add32 (fst p) (snd p)) (combine h st).

Definition hex_digit (d : Z) : ascii :=
  ascii_of_nat (Z.to_nat (if d <? 10 then 48 + d else 87 + d)).

Definition hex_byte (b : Z) : string :=
  String (hex_digit (Z.shiftr b 4)) (String (hex_digit (Z.land b 0xf)) EmptyString).

Definition hexdigest (s : string) : string :=
  let bs := pad (bytes_of s) in
  let ws := words (length bs) bs in
  let h := fold_left compress (blocks (length ws) ws) H0 in
  String.concat EmptyString (map hex_byte (concat (map (be_bytes 4) h))).

End SHA256.

(** ** Concrete objects, worlds and guarded programs

    A small process image used to run the model: the modules [os] and
    [posixpath] share the binding [join] ([os.path] is [posixpath]), and
    a module [m] holds a namespace [m.x] with a function [m.x.x]. *)

Module Scenario.

Definition digest : string -> string := SHA256.hexdigest.

Definition cwd_abspath (p : string) : string := "/work/" +:+ p.

Definition module_object (name : string) (attrs : gmap string ref) : object :=
  {| ob_kind := PyPlain; ob_class_name := "module";
     ob_class_module := "builtins"; ob_class_qualname := "module";
     ob_module := None; ob_qualname := None; ob_name := Some name;
     ob_repr := Ok ("<module '" +:+ name +:+ "'>");
     ob_attrs := attrs; ob_setattr_error := None |}.

Definition function_object (modname name : string) (c : code) : object :=
  {| ob_kind := PyFunction c; ob_class_name := "function";
     ob_class_module := "builtins"; ob_class_qualname := "function";
     ob_module := Some modname; ob_qualname := Some name;
     ob_name := Some name;
     ob_repr := Ok ("<function " +:+ name +:+ " at 0x7f00>");
     ob_attrs := ∅; ob_setattr_error := None |}.

Definition namespace_object (attrs : gmap string ref) : object :=
  {| ob_kind := PyPlain; ob_class_name := "SimpleNamespace";
     ob_class_module := "types"; ob_class_qualname := "SimpleNamespace";
     ob_module := None; ob_qualname := None; ob_name := None;
     ob_repr := Ok "namespace()";
     ob_attrs := attrs; ob_setattr_error := None |}.

Definition none_object : object :=
  {| ob_kind := PyPlain; ob_class_name := "NoneType";
     ob_class_module := "builtins"; ob_class_qualname := "NoneType";
     ob_module := None; ob_qualname := None; ob_name := None;
     ob_repr := Ok "None"; ob_attrs := ∅;
     ob_setattr_error :=
       Some (PyException "AttributeError('NoneType object is read-only')") |}.

Definition join_code : code :=
  {| co_code := "t0|0|1S"; co_consts := "(None, '/')";
     co_names := "('os', 'fspath')"; co_varnames := "('a', 'p')";
     co_filename := "'/usr/lib/python3/posixpath.py'";
     co_firstlineno := "71" |}.

Definition fake_code : code :=
  {| co_code := "d1S"; co_consts := "(None, '/tmp/x')";
     co_names := "()"; co_varnames := "('a', 'p')";
     co_filename := "'t.py'"; co_firstlineno := "3" |}.

Definition f_code : code :=
  {| co_code := "d0S"; co_consts := "(None,)";
     co_names := "()"; co_varnames := "()";
     co_filename := "'m.py'"; co_firstlineno := "1" |}.

Definition heap0 : ref -> object := λ r,
  match r with
  | 1 => module_object "os" {[ "path" := 2 ]}
  | 2 => module_object "posixpath" {[ "join" := 3 ]}
  | 3 => function_object "posixpath" "join" join_code
  | 4 => function_object "__main__" "fake_join" fake_code
  | 5 => module_object "m" {[ "x" := 6 ]}
  | 6 => namespace_object {[ "x" := 7 ]}
  | 7 => function_object "m" "f" f_code
  | _ => none_object
  end%positive.

Definition world0 : world :=
  {| heap := heap0;
     modules := {[ "os" := 1; "posixpath" := 2; "m" := 5 ]}%positive;
     meta_path := ["BuiltinImporter"; "FrozenImporter"; "PathFinder"];
     environ := {[ "HOME" := "/root"; "LANG" := "C" ]};
     argv := ["patchtrap.py"; "run"; "t.py"] |}.

(** [setattr(r, a, v)] done by a guarded program *)
Definition rebind (r : ref) (a : string) (v : ref) (w : world) : world :=
  set_heap (<[r := with_attr a v (heap w r)]> (heap w)) w.

(** [posixpath.join = fake_join] *)
Definition patch_join (_ : string) (w : world) : world * outcome :=
  (rebind 2 "join" 4 w, Completed).

(** [posixpath.join = fake_join; sys.exit(7)] *)
Definition patch_join_and_exit (_ : string) (w : world) : world * outcome :=
  (rebind 2 "join" 4 w, SystemExit (ExitInt 7)).

(** [m.x = m] *)
Definition loop_m (_ : string) (w : world) : world * outcome :=
  (rebind 5 "x" 5 w, Completed).

Definition new_guard (ts : list string) (ar : bool) (i : Q) : PatchTrap :=
  (seal digest world0 (__init__ world0 ts ar i)).1.

Definition join_entry : baseline_entry :=
  {| be_fp := _fingerprint_callable digest (heap0 3);
     be_container := "<module 'posixpath'>"; be_attr := "join" |}.

Definition f_entry : baseline_entry :=
  {| be_fp := _fingerprint_callable digest (heap0 7);
     be_container := "namespace()"; be_attr := "x" |}.

(** An instance of a class with [__call__] whose [__module__],
    [__qualname__] and [__repr__] were chosen by its author, and a
    plain string. *)
Definition crafted_callable : object :=
  {| ob_kind := PyCallable; ob_class_name := "K";
     ob_class_module := "not-callable:'a"; ob_class_qualname := "b";
     ob_module := Some "not-callable:'a"; ob_qualname := None;
     ob_name := None; ob_repr := Ok "c'";
     ob_attrs := ∅; ob_setattr_error := None |}.

Definition plain_str : object :=
  {| ob_kind := PyPlain; ob_class_name := "str";
     ob_class_module := "builtins"; ob_class_qualname := "str";
     ob_module := None; ob_qualname := None; ob_name := None;
     ob_repr := Ok "'a.b:c'";
     ob_attrs := ∅;
     ob_setattr_error :=
       Some (PyException
               "AttributeError('str object has no attribute x')") |}.

(** The code of [join] under another name, in another module. *)
Definition renamed_join : object :=
  function_object "shutil" "copyfile" join_code.

(** A list whose repr is longer than 80 characters, and the repr of a
    list that differs from it in the last element only. *)
Definition eighty : string :=
  "[0, 1, 2, 3, 4, 5, 6, 7, 8, 9, 10, 11, 12, 13, 14, 15, 16, 17, 18, 19, 20, 21, 2".

Definition long_list : object :=
  {| ob_kind := PyPlain; ob_class_name := "list";
     ob_class_module := "builtins"; ob_class_qualname := "list";
     ob_module := None; ob_qualname := None; ob_name := None;
     ob_repr := Ok (eighty +:+ "2, 23]");
     ob_attrs := ∅;
     ob_setattr_error :=
       Some (PyException
               "AttributeError('list object has no attribute x')") |}.

Definition cli_unknown_module : cli_args :=
  {| arg_target := "t.py"; arg_args := "";
     arg_watch := "nosuch.attr,posixpath.join";
     arg_auto_restore := 1; arg_interval := 0 |}.

Definition cli_join : cli_args :=
  {| arg_target := "t.py"; arg_args := "-v out.txt";
     arg_watch := " posixpath.join , ,os.path.join";
     arg_auto_restore := 1; arg_interval := 0 |}.

(** The process after [os] has become unimportable. *)
Definition world_without_os : world :=
  {| heap := heap0;
     modules := {[ "posixpath" := 2; "m" := 5 ]}%positive;
     meta_path := meta_path world0; environ := environ world0;
     argv := argv world0 |}.

(** A package [pkg] with two namespaces [pkg.a] and [pkg.b], each
    holding a function [f]. *)
Definition heap1 : ref -> object := λ r,
  match r with
  | 4 => function_object "__main__" "fake" fake_code
  | 8 => module_object "pkg" {[ "a" := 9; "b" := 10 ]}
  | 9 => namespace_object {[ "f" := 11 ]}
  | 10 => namespace_object {[ "f" := 12 ]}
  | 11 => function_object "pkg" "fa" join_code
  | 12 => function_object "pkg" "fb" f_code
  | _ => none_object
  end%positive.

Definition world1 : world :=
  {| heap := heap1; modules := {[ "pkg" := 8%positive ]};
     meta_path := meta_path world0; environ := environ world0;
     argv := argv world0 |}.

End Scenario.

(** ** Vocabulary of the properties *)

(** Everything of the guard object except the alert log and the report. *)
Definition same_config (s s' : PatchTrap) : Prop :=
  targets s' = targets s ∧ auto_restore s' = auto_restore s ∧
  interval s' = interval s ∧ baseline s' = baseline s ∧
  originals s' = originals s ∧ meta_path0 s' = meta_path0 s ∧
  env0 s' = env0 s.

(** Everything of the process state except the heap. *)
Definition same_ambient (w w' : world) : Prop :=
  modules w' = modules w ∧ meta_path w' = meta_path w ∧
  environ w' = environ w ∧ argv w' = argv w.

(** The target an alert refers to, for the alerts of the target loop. *)
Definition alert_target (a : alert) : option string :=
  match a with
  | ResolveError t _ | Replaced t _ _ | RestoreOk t | RestoreFail t _ => Some t
  | MetaPathChanged _ _ | EnvChanged _ _ _ | ExceptionAlert _ => None
  end.

Definition is_replaced_for (d : string) (a : alert) : bool :=
  match a with
  | Replaced t _ _ => String.eqb t d
  | _ => false
  end.

Definition is_restore (a : alert) : bool :=
  match a with
  | RestoreOk _ | RestoreFail _ _ => true
  | _ => false
  end.

Definition is_env_changed (a : alert) : bool :=
  match a with
  | EnvChanged _ _ _ => true
  | _ => false
  end.

Definition is_scan (e : event) : bool :=
  match e with
  | ScanOnce => true
  | _ => false
  end.

Definition is_json_dump (e : event) : bool :=
  match e with
  | JsonDump _ _ _ _ => true
  | _ => false
  end.

(** The attribute slots read by the loop of [_resolve_dotted] on its
    way to the container: (object, attribute name) pairs. *)
Fixpoint hops (h : ref -> object) (obj : ref) (ps : list string)
  : list (ref * string) :=
  match ps with
  | [] => []
  | p :: ps' =>
      (obj, p) :: match getattr h obj p with
                  | Ok o => hops h o ps'
                  | Raise _ => []
                  end
  end.

Definition resolve_hops (w : world) (name : string) : list (ref * string) :=
  match str_split "." name with
  | module_name :: (_ :: _) as rest =>
      match import_module w module_name with
      | Ok mod_ => hops (heap w) mod_ (removelast rest)
      | Raise _ => []
      end
  | _ => []
  end.

(** The attribute slots a resolution reads: the hops to the container
    and the watched slot itself. *)
Definition target_slots (w : world) (name : string) : list (ref * string) :=
  match _resolve_dotted w name with
  | Ok (container, _, _, attr) => resolve_hops w name ++ [(container, attr)]
  | Raise _ => resolve_hops w name
  end.

(** An object whose [repr] is another one, all else equal. *)
Definition with_repr (r : result string) (o : object) : object :=
  {| ob_kind := ob_kind o; ob_class_name := ob_class_name o;
     ob_class_module := ob_class_module o;
     ob_class_qualname := ob_class_qualname o;
     ob_module := ob_module o; ob_qualname := ob_qualname o;
     ob_name := ob_name o; ob_repr := r;
     ob_attrs := ob_attrs o;
     ob_setattr_error := ob_setattr_error o |}.

Definition is_resolve_error_for (d : string) (a : alert) : bool :=
  match a with
  | ResolveError t _ => String.eqb t d
  | _ => false
  end.

Definition is_replaced (a : alert) : bool :=
  match a with
  | Replaced _ _ _ => true
  | _ => false
  end.

Definition is_meta_path_changed (a : alert) : bool :=
  match a with
  | MetaPathChanged _ _ => true
  | _ => false
  end.

Definition is_exception_alert (a : alert) : bool :=
  match a with
  | ExceptionAlert _ => true
  | _ => false
  end.

Definition is_run_path (e : event) : bool :=
  match e with
  | RunPath _ _ => true
  | _ => false
  end.

Definition is_sleep (e : event) : bool :=
  match e with
  | Sleep _ => true
  | _ => false
  end.

(** The three partitions of an environment diff, as the
    specification words them: variables of now that the baseline lacks,
    variables of the baseline that are gone, and variables of both whose
    value differs (with the value before and after). *)
Definition spec_added (env_now env_0 : gmap string string)
  : gmap string string :=
  filter (λ kv, env_0 !! kv.1 = None) env_now.

Definition spec_removed (env_now env_0 : gmap string string)
  : gmap string string :=
  filter (λ kv, env_now !! kv.1 = None) env_0.

Definition spec_changed (env_now env_0 : gmap string string)
  : gmap string (string * string) :=
  merge (λ b a, match b, a with
                | Some x, Some y => if decide (x = y) then None else Some (x, y)
                | _, _ => None
                end) env_0 env_now.

(** The console line of the [except] clauses. *)
Definition handler_events (o : outcome) : list event :=
  match o with
  | Completed => []
  | SystemExit code =>
      match exit_status code with
      | Ok rc => [Print ("[patchtrap] run end: SystemExit(" +:+ pretty rc +:+ ")")]
      | Raise _ => []
      end
  | Failed _ => [Print "[patchtrap] run end: status=exception"]
  | Interrupted _ => []
  end.

Section Properties.

Variable sha256 : string -> string.
Variable abspath : string -> string.
Variable run_path : string -> world -> world * outcome.

Abbreviation fingerprint_of := (_fingerprint_callable sha256).
Abbreviation scan_step := (scan_target sha256).
Abbreviation scan := (_scan_once sha256).
Abbreviation run_guard := (run sha256 abspath run_path).

(** *** Fingerprints *)

Lemma fingerprint_hash o :
  fp_hash (fingerprint_of o) = sha256 (hashed_string o).
Proof.
  unfold _fingerprint_callable, hashed_string, _sha256_bytes.
  by destruct (fingerprint_parts o) as [[c payload] wh].
Qed.

Lemma non_callable_tag o :
  classify o = NonCallable ->
  ∃ r, hashed_string o = "not-callable:" +:+ r.
Proof.
  unfold classify, hashed_string, fingerprint_parts, fingerprint_try.
  destruct (ob_kind o) as [c|[c|e]| | |]; simpl;
    try (destruct (module_attr o); simpl; discriminate);
    try (destruct (ob_repr o); simpl; try discriminate).
  intros _. by eexists.
Qed.

Lemma error_tag o :
  classify o = FingerprintError ->
  ∃ r, hashed_string o = "error:" +:+ r.
Proof.
  unfold classify, hashed_string, fingerprint_parts.
  destruct (fingerprint_try o) as [[[c payload] wh]|e] eqn:Htry; simpl.
  - intros ->. revert Htry. unfold fingerprint_try.
    destruct (ob_kind o) as [c|[c|e]| | |]; simpl;
      try (destruct (module_attr o); simpl; discriminate);
      try (destruct (ob_repr o); simpl; discriminate).
  - intros _. by eexists.
Qed.

(** C9 (as amended). The hash of a fingerprint is the digest of the
    string built for the value (payload or tag), and the category is
    not part of that string.  So two values of different categories
    have different hashes when their strings differ and the digest does
    not collide on these two strings; the strings of a non-callable
    value and of a value whose fingerprinting failed always differ. *)
Theorem category_separation o1 o2 :
  classify o1 ≠ classify o2 ->
  (sha256 (hashed_string o1) = sha256 (hashed_string o2) ->
   hashed_string o1 = hashed_string o2) ->
  (hashed_string o1 ≠ hashed_string o2 ->
   fp_hash (fingerprint_of o1) ≠ fp_hash (fingerprint_of o2))
  ∧ (classify o1 = NonCallable -> classify o2 = FingerprintError ->
     fp_hash (fingerprint_of o1) ≠ fp_hash (fingerprint_of o2)).
Proof.
  intros _ Hfree. rewrite !fingerprint_hash. split; [by auto|].
  intros H1 H2 Heq. apply Hfree in Heq.
  apply non_callable_tag in H1 as [r1 Hr1].
  apply error_tag in H2 as [r2 Hr2].
  rewrite Hr1, Hr2 in Heq. discriminate.
Qed.

(** *** Sealing *)

(** C4 (as amended). [seal] works through the target list in order and
    stops at the first target whose resolution raises, letting that
    exception escape: the targets before it have their entry
    (fingerprint, container label, attribute name) and their retained
    original, the failing target and the targets after it get nothing.
    When every target resolves, every target is sealed.  Fingerprinting
    cannot fail, so it never stops the sealing. *)
Theorem seal_stops_at_first_failure w s :
  let s' := (seal sha256 w s).1 in
  let raised := (seal sha256 w s).2 in
  ∃ sealed rest,
    targets s = sealed ++ rest ∧
    (∀ d, d ∈ sealed ->
       ∃ container val label attr,
         _resolve_dotted w d = Ok (container, val, label, attr) ∧
         baseline s' !! d
           = Some {| be_fp := fingerprint_of (heap w val);
                     be_container := label; be_attr := attr |} ∧
         originals s' !! d = Some val) ∧
    (∀ d, d ∉ sealed ->
       baseline s' !! d = baseline s !! d ∧
       originals s' !! d = originals s !! d) ∧
    match rest with
    | [] => raised = None
    | d :: _ => ∃ e, _resolve_dotted w d = Raise e ∧ raised = Some e
    end.
Proof.
  unfold seal. generalize (targets s) as ts. intros ts. revert s.
  induction ts as [|d ts IH]; intros s; simpl.
  - exists [], []. repeat split; try done. intros d Hd. by inversion Hd.
  - destruct (_resolve_dotted w d) as [[[[c v] lab] a]|e] eqn:Hres.
    2:{ exists [], (d :: ts). repeat split; try done.
        - intros d' Hd'. by inversion Hd'.
        - by eexists. }
    set (entry := {| be_fp := fingerprint_of (heap w v);
                     be_container := lab; be_attr := a |}).
    destruct (IH (store_baseline d v entry s))
      as (sealed & rest & Hts & Hin & Hout & Hrest).
    exists (d :: sealed), rest. split; [by rewrite Hts|].
    split; [|split; [|exact Hrest]].
    + intros d' Hd'. destruct (decide (d' ∈ sealed)) as [Hs|Hs]; [by auto|].
      apply elem_of_cons in Hd' as [->|?]; [|done].
      destruct (Hout d Hs) as [Hb Ho]. exists c, v, lab, a.
      split; [done|]. rewrite Hb, Ho. simpl.
      by rewrite !lookup_insert_eq.
    + intros d' Hd'. apply not_elem_of_cons in Hd' as [Hne Hs].
      destruct (Hout d' Hs) as [Hb Ho]. rewrite Hb, Ho. simpl.
      by rewrite !lookup_insert_ne.
Qed.

(** *** The environment diff *)

Lemma elem_of_sorted k ks : k ∈ sorted ks ↔ k ∈ ks.
Proof. unfold sorted. by rewrite merge_sort_Permutation. Qed.

Lemma sorted_nil ks : sorted ks = [] ↔ ks = [].
Proof.
  unfold sorted. rewrite <- !Permutation_nil_r.
  by rewrite merge_sort_Permutation.
Qed.

Lemma dict_of_lookup_Some {V} (f : string -> V) ks k v :
  dict_of f ks !! k = Some v ↔ k ∈ ks ∧ f k = v.
Proof.
  unfold dict_of. induction ks as [|k0 ks IH]; simpl.
  - rewrite lookup_empty. split; [done|]. intros [H _]. by inversion H.
  - rewrite lookup_insert. case_decide as Hk; subst.
    + split; [intros [= <-]; split; [by left|done]|]. by intros [_ ->].
    + rewrite IH, elem_of_cons. split; [intros [? ?]; by auto|].
      intros [[?|?] ?]; [congruence|done].
Qed.

Lemma dict_of_empty {V} (f : string -> V) ks : dict_of f ks = ∅ ↔ ks = [].
Proof.
  split; [|by intros ->].
  destruct ks as [|k ks]; [done|]. intros H.
  assert (Hk : dict_of f (k :: ks) !! k = Some (f k))
    by (apply dict_of_lookup_Some; split; [by left|done]).
  rewrite H, lookup_empty in Hk. done.
Qed.

Lemma added_dict env_now env_0 :
  dict_of (λ k, env_now !!! k) (added_keys env_now env_0)
  = spec_added env_now env_0.
Proof.
  apply map_eq. intros k. apply option_eq. intros v.
  rewrite dict_of_lookup_Some. unfold added_keys, spec_added.
  rewrite elem_of_sorted, elem_of_elements, elem_of_difference.
  rewrite map_lookup_filter_Some, !elem_of_dom. simpl.
  rewrite <- eq_None_not_Some. split.
  - intros [[[x Hx] Hn] <-]. by rewrite (lookup_total_correct _ _ _ Hx).
  - intros [Hx Hn]. rewrite (lookup_total_correct _ _ _ Hx). eauto.
Qed.

Lemma removed_dict env_now env_0 :
  dict_of (λ k, env_0 !!! k) (removed_keys env_now env_0)
  = spec_removed env_now env_0.
Proof.
  apply map_eq. intros k. apply option_eq. intros v.
  rewrite dict_of_lookup_Some. unfold removed_keys, spec_removed.
  rewrite elem_of_sorted, elem_of_elements, elem_of_difference.
  rewrite map_lookup_filter_Some, !elem_of_dom. simpl.
  rewrite <- eq_None_not_Some. split.
  - intros [[[x Hx] Hn] <-]. by rewrite (lookup_total_correct _ _ _ Hx).
  - intros [Hx Hn]. rewrite (lookup_total_correct _ _ _ Hx). eauto.
Qed.

Lemma changed_dict env_now env_0 :
  dict_of (λ k, (env_0 !!! k, env_now !!! k)) (changed_keys env_now env_0)
  = spec_changed env_now env_0.
Proof.
  apply map_eq. intros k. apply option_eq. intros v.
  rewrite dict_of_lookup_Some. unfold changed_keys, spec_changed.
  rewrite elem_of_sorted, list_elem_of_filter, elem_of_elements.
  rewrite elem_of_intersection, !elem_of_dom, lookup_merge.
  split.
  - intros [(Hne & [a Ha] & [b Hb]) <-].
    rewrite (lookup_total_correct _ _ _ Ha), (lookup_total_correct _ _ _ Hb).
    rewrite Ha, Hb in *. simpl. case_decide; [congruence|done].
  - destruct (env_0 !! k) as [b|] eqn:Hb, (env_now !! k) as [a|] eqn:Ha;
      simpl; try done.
    case_decide; [done|]. intros [= <-].
    rewrite (lookup_total_correct _ _ _ Ha), (lookup_total_correct _ _ _ Hb).
    split; [|done]. split; [congruence|]. by eauto.
Qed.

(** The alert of the environment check, against the partitions of the
    specification. *)
Lemma env_alert_spec env_now env_0 :
  env_alert env_now env_0
  = if decide (spec_added env_now env_0 = ∅ ∧ spec_removed env_now env_0 = ∅
               ∧ spec_changed env_now env_0 = ∅)
    then None
    else Some (EnvChanged (spec_added env_now env_0)
                          (spec_removed env_now env_0)
                          (spec_changed env_now env_0)).
Proof.
  unfold env_alert.
  rewrite <- added_dict, <- removed_dict, <- changed_dict.
  destruct (added_keys _ _), (removed_keys _ _), (changed_keys _ _);
    case_decide as H; try done;
    try (destruct H as (Ha & Hr & Hc);
         apply dict_of_empty in Ha, Hr, Hc; discriminate).
  by destruct H.
Qed.

(** *** Frame lemmas for the scan *)

Lemma same_config_refl s : same_config s s.
Proof. repeat split. Qed.

Lemma same_config_trans s1 s2 s3 :
  same_config s1 s2 -> same_config s2 s3 -> same_config s1 s3.
Proof. unfold same_config. intuition congruence. Qed.

Lemma same_config_append a s : same_config s (append_alert a s).
Proof. repeat split. Qed.

Lemma same_ambient_refl w : same_ambient w w.
Proof. repeat split. Qed.

Lemma same_ambient_trans w1 w2 w3 :
  same_ambient w1 w2 -> same_ambient w2 w3 -> same_ambient w1 w3.
Proof. unfold same_ambient. intuition congruence. Qed.

Lemma same_ambient_set_heap h w : same_ambient w (set_heap h w).
Proof. repeat split. Qed.

Lemma restore_frame w s d container attr w' s' :
  restore w s d container attr = (w', s') ->
  same_ambient w w' ∧ same_config s s' ∧
  ∃ a, alerts s' = alerts s ++ [a] ∧ alert_target a = Some d
       ∧ is_replaced_for d a = false.
Proof.
  unfold restore. intros H.
  destruct (bind _ _) as [h'|e]; inversion H; subst; clear H.
  - split; [apply same_ambient_set_heap|].
    split; [apply same_config_append|]. by eexists.
  - split; [apply same_ambient_refl|].
    split; [apply same_config_append|]. by eexists.
Qed.

Lemma scan_target_frame w s d w' s' :
  scan_step (w, s) d = (w', s') ->
  same_ambient w w' ∧ same_config s s' ∧
  ∃ new, alerts s' = alerts s ++ new ∧
         Forall (λ a, alert_target a = Some d) new.
Proof.
  unfold scan_target. intros H.
  destruct (_resolve_dotted w d) as [[[[container current] cq] attr]|e].
  2:{ inversion H; subst. split; [apply same_ambient_refl|].
      split; [apply same_config_append|].
      eexists; split; [reflexivity|]. by repeat constructor. }
  destruct (baseline s !! d) as [base|].
  2:{ inversion H; subst. split; [apply same_ambient_refl|].
      split; [apply same_config_refl|].
      exists []. by rewrite app_nil_r. }
  destruct (negb _).
  2:{ inversion H; subst. split; [apply same_ambient_refl|].
      split; [apply same_config_refl|].
      exists []. by rewrite app_nil_r. }
  destruct (auto_restore _).
  - apply restore_frame in H as (Hw & Hs & a & Ha & Ht & _).
    split; [done|]. split.
    { eapply same_config_trans; [apply same_config_append|exact Hs]. }
    eexists [_; a]. split.
    + rewrite Ha. simpl. by rewrite <- app_assoc.
    + by repeat constructor.
  - inversion H; subst. split; [apply same_ambient_refl|].
    split; [apply same_config_append|].
    eexists; split; [reflexivity|]. by repeat constructor.
Qed.

Lemma scan_targets_cons ws d ts :
  scan_targets sha256 ws (d :: ts) = scan_targets sha256 (scan_step ws d) ts.
Proof. reflexivity. Qed.

Lemma scan_targets_app ws ts1 ts2 :
  scan_targets sha256 ws (ts1 ++ ts2)
  = scan_targets sha256 (scan_targets sha256 ws ts1) ts2.
Proof. apply foldl_app. Qed.

Lemma scan_targets_frame ts : ∀ w s w' s',
  scan_targets sha256 (w, s) ts = (w', s') ->
  same_ambient w w' ∧ same_config s s' ∧
  ∃ new, alerts s' = alerts s ++ new ∧
         Forall (λ a, ∃ d, d ∈ ts ∧ alert_target a = Some d) new.
Proof.
  induction ts as [|d ts IH]; intros w s w' s' H.
  - inversion H; subst. split; [apply same_ambient_refl|].
    split; [apply same_config_refl|]. exists []. by rewrite app_nil_r.
  - rewrite scan_targets_cons in H.
    destruct (scan_step (w, s) d) as [w1 s1] eqn:Hstep.
    apply scan_target_frame in Hstep as (Hw1 & Hs1 & n1 & Ha1 & Hf1).
    apply IH in H as (Hw2 & Hs2 & n2 & Ha2 & Hf2).
    split; [by eapply same_ambient_trans|].
    split; [by eapply same_config_trans|].
    exists (n1 ++ n2). split.
    + by rewrite Ha2, Ha1, <- app_assoc.
    + apply Forall_app. split.
      * eapply Forall_impl; [exact Hf1|]. intros a Ha. exists d.
        split; [by left|done].
      * eapply Forall_impl; [exact Hf2|]. intros a (d' & Hin & Ha).
        exists d'. split; [by right|done].
Qed.

Lemma scan_meta_path_frame w s :
  same_config s (scan_meta_path w s) ∧
  ∃ new, alerts (scan_meta_path w s) = alerts s ++ new ∧
         Forall (λ a, alert_target a = None ∧ is_env_changed a = false) new.
Proof.
  unfold scan_meta_path. case_decide.
  - split; [apply same_config_refl|]. exists []. by rewrite app_nil_r.
  - split; [apply same_config_append|]. eexists; split; [reflexivity|].
    by repeat constructor.
Qed.

Lemma env_alert_kind env_now env_0 a :
  env_alert env_now env_0 = Some a -> is_env_changed a = true.
Proof.
  unfold env_alert.
  destruct (added_keys _ _), (removed_keys _ _), (changed_keys _ _);
    intros H; inversion H; reflexivity.
Qed.

Lemma scan_env_frame w s :
  same_config s (scan_env w s) ∧
  ∃ new, alerts (scan_env w s) = alerts s ++ new ∧
         Forall (λ a, is_env_changed a = true) new.
Proof.
  unfold scan_env. destruct (env_alert _ _) as [a|] eqn:Ha.
  - split; [apply same_config_append|]. eexists; split; [reflexivity|].
    repeat constructor. by eapply env_alert_kind.
  - split; [apply same_config_refl|]. exists []. by rewrite app_nil_r.
Qed.

Lemma scan_once_frame w s w' s' :
  scan w s = (w', s') ->
  same_ambient w w' ∧ same_config s s' ∧ ∃ new, alerts s' = alerts s ++ new.
Proof.
  unfold _scan_once. intros H.
  destruct (scan_targets sha256 (w, s) (targets s)) as [w1 s1] eqn:Ht.
  inversion H; subst; clear H.
  apply scan_targets_frame in Ht as (Hw & Hs1 & n1 & Ha1 & _).
  destruct (scan_meta_path_frame w' s1) as (Hs2 & n2 & Ha2 & _).
  destruct (scan_env_frame w' (scan_meta_path w' s1)) as (Hs3 & n3 & Ha3 & _).
  split; [done|]. split.
  { eapply same_config_trans; [exact Hs1|].
    eapply same_config_trans; [exact Hs2|exact Hs3]. }
  exists (n1 ++ n2 ++ n3). by rewrite Ha3, Ha2, Ha1, <- !app_assoc.
Qed.

(** *** Alerts of one scan *)

Lemma filter_none {A} (f : A -> bool) l :
  Forall (λ a, f a = false) l -> List.filter f l = [].
Proof.
  induction 1 as [|a l Ha _ IH]; [done|]. simpl. by rewrite Ha.
Qed.


Lemma other_target_not_replaced a d d' :
  alert_target a = Some d' -> d' ≠ d -> is_replaced_for d a = false.
Proof.
  destruct a; simpl; try done. intros [= ->] Hne. by apply String.eqb_neq.
Qed.

Lemma ambient_alert_not_replaced a d :
  alert_target a = None -> is_replaced_for d a = false.
Proof. by destruct a. Qed.


(** What the loop body does once it has found a mismatch. *)
Lemma scan_target_mismatch w s d container current cq attr base :
  _resolve_dotted w d = Ok (container, current, cq, attr) ->
  baseline s !! d = Some base ->
  fp_hash (fingerprint_of (heap w current)) ≠ fp_hash (be_fp base) ->
  scan_step (w, s) d
  = let s1 := append_alert
                (Replaced d (be_fp base) (fingerprint_of (heap w current))) s in
    if auto_restore s then restore w s1 d container attr else (w, s1).
Proof.
  intros Hres Hbase Hne. unfold scan_target. rewrite Hres, Hbase.
  apply String.eqb_neq in Hne. by rewrite Hne.
Qed.

(** C1 (as amended). Take a sealed target that occurs once in the
    target list and that, when the loop of the scan reaches it (after
    the restores made for the targets before it), resolves to a value
    whose hash is not the sealed one.  The scan appends exactly one
    [replaced] alert for it; [before] is the sealed fingerprint and
    [after] the fingerprint of the value found. *)
Theorem scan_reports_replaced_once w s before_d d after_d base
    w1 s1 container current cq attr :
  targets s = before_d ++ d :: after_d ->
  d ∉ before_d -> d ∉ after_d ->
  baseline s !! d = Some base ->
  scan_targets sha256 (w, s) before_d = (w1, s1) ->
  _resolve_dotted w1 d = Ok (container, current, cq, attr) ->
  fp_hash (fingerprint_of (heap w1 current)) ≠ fp_hash (be_fp base) ->
  ∃ new,
    alerts (scan w s).2 = alerts s ++ new ∧
    List.filter (is_replaced_for d) new
    = [Replaced d (be_fp base) (fingerprint_of (heap w1 current))].
Proof.
  intros Hts Hpre Hpost Hbase Hscan Hres Hne.
  unfold _scan_once. rewrite Hts, scan_targets_app, Hscan, scan_targets_cons.
  destruct (scan_targets_frame _ _ _ _ _ Hscan) as (_ & Hs1 & n1 & Ha1 & Hf1).
  assert (Hb1 : baseline s1 !! d = Some base).
  { destruct Hs1 as (_&_&_&E&_). by rewrite E. }
  rewrite (scan_target_mismatch _ _ _ _ _ _ _ _ Hres Hb1 Hne). simpl.
  set (rep := Replaced d (be_fp base) (fingerprint_of (heap w1 current))).
  assert (Hmid : ∃ w2 s2 n2,
    (if auto_restore s1 then restore w1 (append_alert rep s1) d container attr
     else (w1, append_alert rep s1)) = (w2, s2) ∧
    alerts s2 = alerts s1 ++ rep :: n2 ∧
    Forall (λ a, is_replaced_for d a = false) n2).
  { destruct (auto_restore s1).
    - destruct (restore w1 (append_alert rep s1) d container attr)
        as [w2 s2] eqn:Hr.
      apply restore_frame in Hr as (_ & _ & a & Ha & _ & Hnot).
      exists w2, s2, [a]. split; [done|]. split.
      + rewrite Ha. simpl. by rewrite <- app_assoc.
      + by repeat constructor.
    - exists w1, (append_alert rep s1), []. by repeat split. }
  destruct Hmid as (w2 & s2 & n2 & -> & Ha2 & Hf2).
  destruct (scan_targets sha256 (w2, s2) after_d) as [w3 s3] eqn:Hpost_scan.
  apply scan_targets_frame in Hpost_scan as (_ & _ & n3 & Ha3 & Hf3).
  destruct (scan_meta_path_frame w3 s3) as (_ & n4 & Ha4 & Hf4).
  destruct (scan_env_frame w3 (scan_meta_path w3 s3)) as (_ & n5 & Ha5 & Hf5).
  exists (n1 ++ rep :: n2 ++ n3 ++ n4 ++ n5). split.
  { simpl. rewrite Ha5, Ha4, Ha3, Ha2, Ha1.
    by rewrite <- !app_assoc. }
  rewrite List.filter_app. simpl. rewrite !List.filter_app.
  rewrite (filter_none _ n1), (filter_none _ n2), (filter_none _ n3),
    (filter_none _ n4), (filter_none _ n5).
  - unfold rep. simpl. by rewrite String.eqb_refl.
  - eapply Forall_impl; [exact Hf5|]. intros a Ha. by destruct a.
  - eapply Forall_impl; [exact Hf4|]. intros a [Ha _].
    by apply ambient_alert_not_replaced.
  - eapply Forall_impl; [exact Hf3|]. intros a (d' & Hin & Ha).
    eapply other_target_not_replaced; [exact Ha|]. by intros ->.
  - exact Hf2.
  - eapply Forall_impl; [exact Hf1|]. intros a (d' & Hin & Ha).
    eapply other_target_not_replaced; [exact Ha|]. by intros ->.
Qed.

(** *** Restoring a binding *)

Lemma getattr_insert_other (h : ref -> object) r a v obj p :
  (obj, p) ≠ (r, a) ->
  getattr (<[r := with_attr a v (h r)]> h) obj p = getattr h obj p.
Proof.
  intros Hne. unfold getattr.
  destruct (decide (r = obj)) as [->|Hr].
  - rewrite fn_lookup_insert. simpl.
    rewrite lookup_insert_ne by congruence. done.
  - by rewrite fn_lookup_insert_ne.
Qed.

Lemma getattr_insert_same (h : ref -> object) r a v :
  getattr (<[r := with_attr a v (h r)]> h) r a = Ok v.
Proof.
  unfold getattr. rewrite fn_lookup_insert. simpl.
  by rewrite lookup_insert_eq.
Qed.

Lemma container_label_insert (h : ref -> object) r a v obj :
  container_label ((<[r := with_attr a v (h r)]> h) obj)
  = container_label (h obj).
Proof.
  destruct (decide (r = obj)) as [->|Hr].
  - by rewrite fn_lookup_insert.
  - by rewrite fn_lookup_insert_ne.
Qed.

Lemma walk_insert (h : ref -> object) r a v ps : ∀ obj,
  (r, a) ∉ hops h obj ps ->
  walk (<[r := with_attr a v (h r)]> h) obj ps = walk h obj ps.
Proof.
  induction ps as [|p ps IH]; intros obj Hnot; [done|].
  simpl in *. apply not_elem_of_cons in Hnot as [Hne Hrest].
  rewrite getattr_insert_other by done.
  destruct (getattr h obj p) as [o|e]; simpl; [|done]. by apply IH.
Qed.

(** A successful [setattr] on the container found by a resolution: the
    next resolution gives the new value, provided the slot written is
    not one of the slots read on the way to the container. *)
Lemma resolve_after_setattr w d container current cq attr v :
  _resolve_dotted w d = Ok (container, current, cq, attr) ->
  (container, attr) ∉ resolve_hops w d ->
  _resolve_dotted
    (set_heap (<[container := with_attr attr v (heap w container)]> (heap w)) w)
    d
  = Ok (container, v, cq, attr).
Proof.
  unfold _resolve_dotted, resolve_hops.
  destruct (str_split "." d) as [|m [|p ps]]; try done. cbv beta iota.
  generalize (removelast (p :: ps)) (List.last (p :: ps) "").
  intros mid final. unfold import_module.
  change (modules (set_heap _ w)) with (modules w).
  change (heap (set_heap ?h w)) with h.
  destruct (modules w !! m) as [mod_|]; simpl;
    [|by destruct (String.eqb m "")].
  destruct (walk (heap w) mod_ mid) as [obj|] eqn:Hwalk; simpl; [|done].
  destruct (getattr (heap w) obj final) as [val|] eqn:Hval; simpl; [|done].
  destruct (container_label (heap w obj)) as [lab|] eqn:Hlab; simpl; [|done].
  intros [= -> -> -> <-] Hnot.
  rewrite walk_insert, Hwalk by done. simpl.
  rewrite getattr_insert_same. simpl.
  by rewrite container_label_insert, Hlab.
Qed.

Lemma ambient_alert_not_restore a :
  alert_target a = None -> is_restore a = false.
Proof. by destruct a. Qed.

(** Without auto-restore a scan step leaves the heap alone and logs no
    restore alert. *)
Lemma scan_target_no_restore w s d :
  auto_restore s = false ->
  (scan_step (w, s) d).1 = w ∧
  ∃ new, alerts (scan_step (w, s) d).2 = alerts s ++ new ∧
         Forall (λ a, is_restore a = false) new.
Proof.
  intros Har. unfold scan_target.
  assert (Hnil : ∃ new, alerts s = alerts s ++ new ∧
                        Forall (λ a, is_restore a = false) new)
    by (exists []; by rewrite app_nil_r).
  destruct (_resolve_dotted w d) as [[[[container current] cq] attr]|e]; simpl.
  2:{ split; [done|]. eexists. split; [done|]. by repeat constructor. }
  destruct (baseline s !! d) as [base|]; [|done].
  destruct (negb _); [|done]. rewrite Har. simpl. split; [done|].
  eexists. split; [done|]. by repeat constructor.
Qed.

Lemma scan_targets_no_restore ts : ∀ w s,
  auto_restore s = false ->
  (scan_targets sha256 (w, s) ts).1 = w ∧
  ∃ new, alerts (scan_targets sha256 (w, s) ts).2 = alerts s ++ new ∧
         Forall (λ a, is_restore a = false) new.
Proof.
  induction ts as [|d ts IH]; intros w s Har.
  - split; [done|]. exists []. by rewrite app_nil_r.
  - rewrite scan_targets_cons.
    destruct (scan_target_no_restore w s d Har) as (Hw & n1 & Ha1 & Hf1).
    destruct (scan_step (w, s) d) as [w1 s1] eqn:Hstep. simpl in *. subst w1.
    apply scan_target_frame in Hstep as (_ & (_ & Har1 & _) & _).
    destruct (IH w s1) as (Hw2 & n2 & Ha2 & Hf2); [congruence|].
    split; [done|]. exists (n1 ++ n2). split.
    + by rewrite Ha2, Ha1, <- app_assoc.
    + by apply Forall_app.
Qed.

Lemma scan_once_no_restore w s :
  auto_restore s = false ->
  (scan w s).1 = w ∧
  ∃ new, alerts (scan w s).2 = alerts s ++ new ∧
         Forall (λ a, is_restore a = false) new.
Proof.
  intros Har. unfold _scan_once.
  destruct (scan_targets_no_restore (targets s) w s Har)
    as (Hw & n1 & Ha1 & Hf1).
  destruct (scan_targets sha256 (w, s) (targets s)) as [w1 s1].
  simpl in *. subst w1. split; [done|].
  destruct (scan_meta_path_frame w s1) as (_ & n2 & Ha2 & Hf2).
  destruct (scan_env_frame w (scan_meta_path w s1)) as (_ & n3 & Ha3 & Hf3).
  exists (n1 ++ n2 ++ n3). split.
  - by rewrite Ha3, Ha2, Ha1, <- !app_assoc.
  - rewrite !Forall_app. repeat split; [done|..].
    + eapply Forall_impl; [exact Hf2|]. intros a [Ha _].
      by apply ambient_alert_not_restore.
    + eapply Forall_impl; [exact Hf3|]. intros a Ha. by destruct a.
Qed.

Lemma getattr_agree (h h' : ref -> object) r a v :
  getattr h r a = Ok v ->
  ob_attrs (h' r) !! a = ob_attrs (h r) !! a ->
  getattr h' r a = Ok v.
Proof.
  unfold getattr. intros H ->. by destruct (ob_attrs (h r) !! a).
Qed.

Lemma walk_agree (h h' : ref -> object) ps : ∀ obj o,
  walk h obj ps = Ok o ->
  (∀ r a, (r, a) ∈ hops h obj ps ->
          ob_attrs (h' r) !! a = ob_attrs (h r) !! a) ->
  walk h' obj ps = Ok o.
Proof.
  induction ps as [|p ps IH]; intros obj o Hwalk Hslots; [done|].
  simpl in *. destruct (getattr h obj p) as [x|e] eqn:Hget; [|done].
  rewrite (getattr_agree h h' obj p x Hget); [|apply Hslots; by left].
  simpl in *. apply IH; [done|]. intros r a Hin. apply Hslots. by right.
Qed.

(** A resolution reads the modules table, the slots on its path and
    the label of the container, and nothing else. *)
Lemma resolve_agree w w' d c v lab attr :
  modules w' = modules w ->
  (∀ r, container_label (heap w' r) = container_label (heap w r)) ->
  _resolve_dotted w d = Ok (c, v, lab, attr) ->
  (∀ r a, (r, a) ∈ target_slots w d ->
          ob_attrs (heap w' r) !! a = ob_attrs (heap w r) !! a) ->
  _resolve_dotted w' d = Ok (c, v, lab, attr).
Proof.
  intros Hmod Hlab Hres. unfold target_slots. rewrite Hres. revert Hres.
  unfold _resolve_dotted, resolve_hops.
  destruct (str_split "." d) as [|m [|p ps]]; try done. cbv beta iota.
  generalize (removelast (p :: ps)) (List.last (p :: ps) "").
  intros mid final. unfold import_module. rewrite Hmod.
  destruct (modules w !! m) as [mod_|]; simpl;
    [|by destruct (String.eqb m "")].
  destruct (walk (heap w) mod_ mid) as [obj|] eqn:Hwalk; simpl; [|done].
  destruct (getattr (heap w) obj final) as [x|] eqn:Hval; simpl; [|done].
  destruct (container_label (heap w obj)) as [l|] eqn:Hl; simpl; [|done].
  intros [= -> -> -> <-] Hslots.
  rewrite (walk_agree _ (heap w') _ _ _ Hwalk).
  2:{ intros r a Hin. apply Hslots, elem_of_app. by left. }
  simpl. rewrite (getattr_agree _ (heap w') _ _ _ Hval).
  2:{ apply Hslots, elem_of_app. right. by left. }
  simpl. by rewrite Hlab, Hl.
Qed.

Lemma scan_target_labels w s d :
  ∀ r, container_label (heap (scan_step (w, s) d).1 r)
       = container_label (heap w r).
Proof.
  intros r. unfold scan_target, restore.
  destruct (_resolve_dotted w d) as [[[[c cur] cq] attr]|e]; [|done].
  destruct (baseline s !! d); [|done].
  destruct (negb _); [|done].
  destruct (auto_restore _); [|done].
  unfold original_of, setattr. destruct (originals _ !! d); simpl; [|done].
  destruct (ob_setattr_error (heap w c)); simpl; [done|].
  apply container_label_insert.
Qed.

Lemma scan_targets_labels ts : ∀ w s r,
  container_label (heap (scan_targets sha256 (w, s) ts).1 r)
  = container_label (heap w r).
Proof.
  induction ts as [|d ts IH]; intros w s r; [done|].
  rewrite scan_targets_cons.
  pose proof (scan_target_labels w s d r) as H.
  destruct (scan_step (w, s) d) as [w1 s1]. simpl in H.
  by rewrite IH.
Qed.

(** C5 (as amended). When the loop of the scan finds a mismatch for a
    sealed target: with auto-restore on, the attribute of the container
    found by this resolution is set to the retained original, so that
    reading that attribute right after the restore gives the original,
    and a restore-ok alert follows the [replaced] alert.  A resolution
    of the target right after the restore gives the original whenever
    the attribute written is not itself read on the way from the module
    to the container; the resolution at the end of the scan still gives
    it when, besides, the rest of the scan (the restores made for the
    later targets) leaves the attribute slots read by this resolution
    as the restore left them.  If the assignment raises, the heap is as
    before and a restore-fail alert carries the reason.  With
    auto-restore off only the [replaced] alert is appended and the heap
    is as before; a whole scan then changes no binding and logs no
    restore alert.  The alerts of the step stay in the log of the
    scan. *)
Theorem restore_on_mismatch w s before_d d after_d w1 s1
    container current cq attr base orig :
  targets s = before_d ++ d :: after_d ->
  scan_targets sha256 (w, s) before_d = (w1, s1) ->
  _resolve_dotted w1 d = Ok (container, current, cq, attr) ->
  baseline s !! d = Some base ->
  originals s !! d = Some orig ->
  fp_hash (fingerprint_of (heap w1 current)) ≠ fp_hash (be_fp base) ->
  let replaced := Replaced d (be_fp base) (fingerprint_of (heap w1 current)) in
  let w2 := (scan_step (w1, s1) d).1 in
  let s2 := (scan_step (w1, s1) d).2 in
  let w' := (scan w s).1 in
  let s' := (scan w s).2 in
  (∃ later, alerts s' = alerts s2 ++ later) ∧
  (if auto_restore s then
     match ob_setattr_error (heap w1 container) with
     | None =>
         alerts s2 = alerts s1 ++ [replaced; RestoreOk d] ∧
         getattr (heap w2) container attr = Ok orig ∧
         ((container, attr) ∉ resolve_hops w1 d ->
          _resolve_dotted w2 d = Ok (container, orig, cq, attr) ∧
          ((∀ r a, (r, a) ∈ target_slots w2 d ->
                   ob_attrs (heap w' r) !! a = ob_attrs (heap w2 r) !! a) ->
           _resolve_dotted w' d = Ok (container, orig, cq, attr)))
     | Some e =>
         alerts s2 = alerts s1 ++ [replaced; RestoreFail d (repr_exn e)] ∧
         w2 = w1
     end
   else alerts s2 = alerts s1 ++ [replaced] ∧ w2 = w1)
  ∧ (auto_restore s = false ->
     w' = w ∧
     ∃ new, alerts s' = alerts s ++ new ∧
            Forall (λ a, is_restore a = false) new).
Proof.
  intros Hts Hscan Hres Hbase Horig Hne replaced w2 s2 w' s'.
  destruct (scan_targets_frame _ _ _ _ _ Hscan)
    as (_ & (_ & Har & _ & Hb1 & Ho1 & _) & _).
  rewrite <- Hb1 in Hbase. rewrite <- Ho1 in Horig. rewrite <- Har.
  assert (Hrest : scan w s
            = let '(w3, s3) := scan_targets sha256 (w2, s2) after_d in
              (w3, scan_env w3 (scan_meta_path w3 s3))).
  { unfold _scan_once, w2, s2.
    rewrite Hts, scan_targets_app, Hscan, scan_targets_cons.
    by destruct (scan_step (w1, s1) d). }
  destruct (scan_targets sha256 (w2, s2) after_d) as [w3 s3] eqn:Hafter.
  assert (Hw' : w' = w3) by (unfold w'; by rewrite Hrest).
  assert (Hs' : s' = scan_env w3 (scan_meta_path w3 s3))
    by (unfold s'; by rewrite Hrest).
  pose proof (scan_targets_labels after_d w2 s2) as Hlabels.
  rewrite Hafter in Hlabels. simpl in Hlabels.
  destruct (scan_targets_frame _ _ _ _ _ Hafter)
    as ((Hmod & _) & _ & n3 & Ha3 & _).
  split; [|split].
  - destruct (scan_meta_path_frame w3 s3) as (_ & n4 & Ha4 & _).
    destruct (scan_env_frame w3 (scan_meta_path w3 s3)) as (_ & n5 & Ha5 & _).
    exists (n3 ++ n4 ++ n5). by rewrite Hs', Ha5, Ha4, Ha3, <- !app_assoc.
  - clear Hrest Hs'. rewrite Hw'. clear Hw'.
    revert Hafter Hlabels Hmod. unfold w2, s2.
    rewrite (scan_target_mismatch _ _ _ _ _ _ _ _ Hres Hbase Hne). simpl.
    destruct (auto_restore s1); [|done].
    unfold restore, original_of, setattr. simpl. rewrite Horig. simpl.
    destruct (ob_setattr_error (heap w1 container)) as [e|]; simpl.
    + intros _ _ _. split; [|done]. by rewrite <- app_assoc.
    + intros Hafter Hlabels Hmod.
      split; [by rewrite <- app_assoc|]. split.
      * apply getattr_insert_same.
      * intros Hnot.
        pose proof (resolve_after_setattr _ _ _ _ _ _ orig Hres Hnot) as Hr2.
        split; [exact Hr2|]. intros Hslots.
        eapply resolve_agree; [| |exact Hr2|exact Hslots];
          [exact Hmod|exact Hlabels].
  - rewrite Har. apply scan_once_no_restore.
Qed.

(** *** The harness *)

Lemma run_try_frame w s path w1 s1 ev o :
  run_try sha256 run_path w s path = (w1, s1, ev, o) ->
  same_config s s1 ∧ (∃ new, alerts s1 = alerts s ++ new) ∧
  o = (run_path path (if Qlt_le_dec 0 (interval s) then (scan w s).1 else w)).2.
Proof.
  unfold run_try. intros H.
  destruct (Qlt_le_dec 0 (interval s)).
  - destruct (scan w s) as [wa sa] eqn:Ha.
    destruct (scan_once_frame _ _ _ _ Ha) as (_ & Hsa & na & Hna).
    simpl. destruct (run_path path wa) as [wb ob] eqn:Hb; simpl.
    destruct ob; try (inversion H; subst; by eauto).
    destruct (scan wb sa) as [wc sc] eqn:Hc.
    destruct (scan_once_frame _ _ _ _ Hc) as (_ & Hsc & nc & Hnc).
    inversion H; subst. split; [by eapply same_config_trans|].
    split; [|done]. exists (na ++ nc).
    by rewrite Hnc, Hna, <- app_assoc.
  - destruct (run_path path w) as [wb ob] eqn:Hb; simpl.
    destruct ob;
      try (inversion H; subst; split; [apply same_config_refl|];
           split; [exists []; by rewrite app_nil_r|done]).
    destruct (scan wb s) as [wc sc] eqn:Hc.
    destruct (scan_once_frame _ _ _ _ Hc) as (_ & Hsc & nc & Hnc).
    inversion H; subst. by eauto.
Qed.

Lemma run_except_frame s o s2 ev r :
  run_except s o = (s2, ev, r) ->
  same_config s s2 ∧ (∃ new, alerts s2 = alerts s ++ new) ∧
  Forall (λ e, is_scan e = false ∧ is_json_dump e = false) ev.
Proof.
  unfold run_except. intros H.
  assert (Hnil : ∃ new, alerts s = alerts s ++ new)
    by (exists []; by rewrite app_nil_r).
  destruct o as [|code|e|b].
  - inversion H; subst. split; [apply same_config_refl|]. by split.
  - destruct (exit_status code); inversion H; subst;
      (split; [apply same_config_refl|]); split; try done;
      by repeat constructor.
  - inversion H; subst. split; [apply same_config_append|].
    split; [by eexists|]. by repeat constructor.
  - inversion H; subst. split; [apply same_config_refl|]. by split.
Qed.

(** The events of a run, in order, in terms of how the program ended. *)
Lemma run_events w s path args t0 t1 :
  let r := run_guard w s path args t0 t1 in
  let o := program_outcome sha256 run_path w s path args in
  ∃ rep,
    report (end_guard r) = Some rep ∧
    rep_alerts rep = alerts (end_guard r) ∧
    end_events r =
      [Print (sealed_line s);
       Print ("[patchtrap] run begin: " +:+ abspath path)]
      ++ (if Qlt_le_dec 0 (interval s) then [ScanOnce] else [])
      ++ [RunPath path "__main__"]
      ++ match o with
         | Completed =>
             (if Qlt_le_dec 0 (interval s) then [Sleep (interval s)] else [])
             ++ [ScanOnce; Print "[patchtrap] run end: status=ok"]
         | _ => handler_events o
         end
      ++ [JsonDump "patchtrap_report.json" rep 2 true;
          Print "[patchtrap] report saved: patchtrap_report.json"].
Proof.
  unfold run, program_outcome, entry_world, run_try.
  set (w0 := set_argv _ w).
  destruct (Qlt_le_dec 0 (interval s)).
  - destruct (_scan_once sha256 w0 s) as [wa sa]; simpl.
    destruct (run_path path wa) as [wb ob]; simpl.
    destruct ob as [|code|e|b]; simpl.
    + destruct (_scan_once sha256 wb sa) as [wc sc]; simpl. by eexists.
    + destruct (exit_status code); simpl; by eexists.
    + by eexists.
    + by eexists.
  - destruct (run_path path w0) as [wb ob]; simpl.
    destruct ob as [|code|e|b]; simpl.
    + destruct (_scan_once sha256 wb s) as [wc sc]; simpl. by eexists.
    + destruct (exit_status code); simpl; by eexists.
    + by eexists.
    + by eexists.
Qed.

(** The guard object at the end of a run. *)
Lemma run_guard_frame w s path args t0 t1 :
  let r := run_guard w s path args t0 t1 in
  same_config s (end_guard r) ∧
  (∃ new, alerts (end_guard r) = alerts s ++ new) ∧
  ∃ rep, report (end_guard r) = Some rep ∧
         duration_sec rep = round3 (t1 - t0) ∧
         rep_auto_restore rep = auto_restore s ∧
         rep_targets rep = targets s ∧
         rep_alerts rep = alerts (end_guard r).
Proof.
  unfold run. set (w0 := set_argv _ w).
  destruct (run_try _ _ w0 s path) as [[[w1 s1] ev] o] eqn:Htry.
  destruct (run_except s1 o) as [[s2 ev'] res] eqn:Hexc. simpl.
  apply run_try_frame in Htry as (Hs1 & (n1 & Hn1) & _).
  apply run_except_frame in Hexc as (Hs2 & (n2 & Hn2) & _).
  assert (Hs : same_config s s2) by (by eapply same_config_trans).
  split; [exact Hs|]. split.
  { exists (n1 ++ n2). by rewrite Hn2, Hn1, <- app_assoc. }
  eexists. split; [reflexivity|]. simpl.
  destruct Hs as (Ht & Ha & _). by rewrite Ht, Ha.
Qed.

Lemma round_half_even_floor q : (Qfloor q <= round_half_even q)%Z.
Proof.
  unfold round_half_even.
  destruct (Qcompare _ _); [destruct (Z.even _)|..]; lia.
Qed.

Lemma round3_nonneg q : (0 <= q)%Q -> (0 <= round3 q)%Q.
Proof.
  intros Hq.
  assert (H : (0 <= round_half_even (q * 1000))%Z).
  { etrans; [|apply round_half_even_floor].
    change 0%Z with (Qfloor 0). apply Qfloor_resp_le.
    rewrite <- (Qmult_0_l 1000). apply Qmult_le_compat_r; [done|].
    by unfold Qle. }
  unfold round3, Qle. simpl. lia.
Qed.

Lemma handler_events_no_scan o :
  Forall (λ e, is_scan e = false ∧ is_json_dump e = false) (handler_events o).
Proof.
  destruct o as [|code|e|b]; simpl; try (by repeat constructor).
  destruct (exit_status code); by repeat constructor.
Qed.

(** While the guarded program runs, [sys.argv] is the guest vector. *)
Lemma entry_world_argv w s path args :
  argv (entry_world sha256 w s path args) = guest_argv path args.
Proof.
  unfold entry_world. destruct (Qlt_le_dec 0 (interval s)); [|done].
  destruct (scan (set_argv (guest_argv path args) w) s) as [wa sa] eqn:Ha.
  apply scan_once_frame in Ha as ((_ & _ & _ & Hargv) & _). done.
Qed.

(** C10. Whatever the guarded program does and however it ends
    (return, [SystemExit], an exception, even one [run] does not
    catch), [sys.argv] after [run] is the list it was before the call. *)
Theorem run_restores_argv w s path args t0 t1 :
  argv (end_world (run sha256 abspath run_path w s path args t0 t1)) = argv w.
Proof.
  unfold run.
  destruct (run_try _ _ _ s path) as [[[w1 s1] ev] o].
  destruct (run_except s1 o) as [[s2 ev'] res]. reflexivity.
Qed.

(** C6. The value [run] returns: the integer given to [SystemExit] as
    it is, 1 after an exception escaped the program, 0 after it ran to
    its end.  ([SystemExit] without a code gives 0; for a payload that
    is not an integer [run] returns [int(payload)] when the payload is
    truthy and that conversion succeeds, and lets the conversion error
    escape otherwise.) *)
Theorem exit_status_mapping w s path args t0 t1 :
  let rc := end_result (run_guard w s path args t0 t1) in
  match program_outcome sha256 run_path w s path args with
  | Completed => rc = Returns 0
  | SystemExit (ExitInt n) => rc = Returns n
  | SystemExit ExitNone => rc = Returns 0
  | SystemExit (ExitObject truthy as_int) =>
      rc = if truthy then
             match as_int with
             | Ok n => Returns n
             | Raise e => Raises (repr_exn e)
             end
           else Returns 0
  | Failed _ => rc = Returns 1
  | Interrupted b => rc = Raises b
  end.
Proof.
  unfold run, program_outcome, entry_world, run_try.
  set (w0 := set_argv _ w).
  destruct (Qlt_le_dec 0 (interval s)).
  - destruct (_scan_once sha256 w0 s) as [wa sa]; simpl.
    destruct (run_path path wa) as [wb ob]; simpl.
    destruct ob as [|[|n|[] [n|e]]|e|b]; simpl; try reflexivity.
    destruct (_scan_once sha256 wb sa) as [wc sc]; reflexivity.
  - destruct (run_path path w0) as [wb ob]; simpl.
    destruct ob as [|[|n|[] [n|e]]|e|b]; simpl; try reflexivity.
    destruct (_scan_once sha256 wb s) as [wc sc]; reflexivity.
Qed.

(** C7 (as amended). Every run, however the program ended and whatever
    the clock did, dumps exactly one report, with [indent=2] and
    [sort_keys=True], followed only by the closing status line.  The
    report holds the rounded difference of the two clock readings, the
    auto-restore flag, the target list, and the alert log, which
    extends the log from before the run.  The duration is not negative
    when the reading taken at teardown is not earlier than the one
    taken at the start. *)
Theorem run_report_complete w s path args t0 t1 :
  let r := run_guard w s path args t0 t1 in
  ∃ before rep,
    end_events r =
      before ++ [JsonDump "patchtrap_report.json" rep 2 true;
                 Print "[patchtrap] report saved: patchtrap_report.json"] ∧
    Forall (λ e, is_json_dump e = false) before ∧
    report (end_guard r) = Some rep ∧
    duration_sec rep = round3 (t1 - t0) ∧
    ((t0 <= t1)%Q -> (0 <= duration_sec rep)%Q) ∧
    rep_auto_restore rep = auto_restore s ∧
    rep_targets rep = targets s ∧
    rep_alerts rep = alerts (end_guard r) ∧
    ∃ new, alerts (end_guard r) = alerts s ++ new.
Proof.
  intros r.
  destruct (run_events w s path args t0 t1) as (rep & Hrep & _ & Hev).
  destruct (run_guard_frame w s path args t0 t1)
    as (_ & Hnew & rep' & Hrep' & Hdur & Har & Htg & Hal).
  fold r in Hrep, Hev, Hnew, Hrep', Hal.
  assert (rep' = rep) as -> by congruence.
  eexists _, rep. split.
  { rewrite Hev. rewrite !app_assoc. reflexivity. }
  split.
  { rewrite !Forall_app. repeat split; try (by repeat constructor).
    - destruct (Qlt_le_dec 0 (interval s)); by repeat constructor.
    - destruct (program_outcome _ _ _ _ _ _) eqn:Ho;
        try (rewrite <- Ho; eapply Forall_impl;
             [apply handler_events_no_scan|by intros ? [_ ?]]).
      rewrite Forall_app. split; [|by repeat constructor].
      destruct (Qlt_le_dec 0 (interval s)); by repeat constructor. }
  repeat split; try done.
  intros Ht. rewrite Hdur. apply round3_nonneg.
  rewrite <- (Qplus_opp_r t0). apply Qplus_le_compat; [done|apply Qle_refl].
Qed.

(** C3 (as amended). With a positive interval the harness scans, starts
    the program and, when the program returns, sleeps for the interval
    and scans once more.  With interval 0 nothing is scanned before the
    program starts; when the program returns, one scan follows. *)
Theorem run_checkpoints w s path args t0 t1 :
  let r := run_guard w s path args t0 t1 in
  let o := program_outcome sha256 run_path w s path args in
  ∃ p1 p2 rest,
    if Qlt_le_dec 0 (interval s) then
      end_events r
        = [Print p1; Print p2; ScanOnce; RunPath path "__main__"] ++ rest ∧
      match o with
      | Completed =>
          ∃ tail, rest = Sleep (interval s) :: ScanOnce :: tail ∧
                  Forall (λ e, is_scan e = false) tail
      | _ => True
      end
    else
      end_events r = [Print p1; Print p2; RunPath path "__main__"] ++ rest ∧
      match o with
      | Completed =>
          ∃ tail, rest = ScanOnce :: tail ∧
                  Forall (λ e, is_scan e = false) tail
      | _ => True
      end.
Proof.
  intros r o.
  destruct (run_events w s path args t0 t1) as (rep & _ & _ & Hev).
  fold r o in Hev. do 2 eexists.
  destruct (Qlt_le_dec 0 (interval s)); eexists; (split; [exact Hev|]);
    destruct o; try exact I; eexists; (split; [reflexivity|]);
    by repeat constructor.
Qed.

(** When the program does not return, nothing is scanned after it. *)
Lemma post_scan_only_on_return w s path args t0 t1 :
  program_outcome sha256 run_path w s path args ≠ Completed ->
  ∃ before after,
    end_events (run_guard w s path args t0 t1)
      = before ++ RunPath path "__main__" :: after ∧
    Forall (λ e, is_scan e = false) after.
Proof.
  intros Ho.
  destruct (run_events w s path args t0 t1) as (rep & _ & _ & Hev).
  eexists (_ ++ _), _. split.
  { rewrite Hev. rewrite <- app_assoc. reflexivity. }
  rewrite Forall_app. split; [|by repeat constructor].
  destruct (program_outcome _ _ _ _ _ _) eqn:Heq; [done|..];
    rewrite <- Heq; (eapply Forall_impl;
      [apply handler_events_no_scan|by intros ? [? _]]).
Qed.

End Properties.

(** ** The model on concrete inputs *)

Example sha256_abc :
  SHA256.hexdigest "abc"
  = "ba7816bf8f01cfea414140de5dae2223b00361a396177a9cb410ff61f20015ad".
Proof. vm_compute. reflexivity. Qed.

Example split_examples :
  str_split "." "os.path.join" = ["os"; "path"; "join"] ∧
  str_split "." "open" = ["open"] ∧
  split_ws "" "  -v  out.txt " = ["-v"; "out.txt"].
Proof. by vm_compute. Qed.

(** *** Tamper detection (C1) *)

(** C1, as stated, fails here.  [os.path.join] and [posixpath.join]
    are watched and sealed, the program rebinds [posixpath.join],
    auto-restore is on.  Both targets
    resolve to the fake function when the scan starts.  The scan
    reports and restores the first; the second then resolves to the
    original again and gets no alert. *)
Lemma aliased_target_gets_no_alert :
  let s := Scenario.new_guard ["os.path.join"; "posixpath.join"] true 0 in
  let w := Scenario.rebind 2 "join" 4 Scenario.world0 in
  baseline s !! "posixpath.join" = Some Scenario.join_entry ∧
  _resolve_dotted w "posixpath.join"
    = Ok (2%positive, 4%positive, "<module 'posixpath'>", "join") ∧
  fp_hash (_fingerprint_callable Scenario.digest (heap w 4))
    ≠ fp_hash (be_fp Scenario.join_entry) ∧
  alerts s = [] ∧
  List.filter (is_replaced_for "posixpath.join")
    (alerts (_scan_once Scenario.digest w s).2) = [].
Proof. repeat split; vm_compute; (reflexivity || discriminate). Qed.

(** A target listed twice is reported twice when auto-restore is off. *)
Lemma duplicate_target_reported_twice :
  let s := Scenario.new_guard ["posixpath.join"; "posixpath.join"] false 0 in
  let w := Scenario.rebind 2 "join" 4 Scenario.world0 in
  length (List.filter (is_replaced_for "posixpath.join")
            (alerts (_scan_once Scenario.digest w s).2)) = 2.
Proof. vm_compute. reflexivity. Qed.

Lemma scan_reports_replaced_once_witness :
  let s := Scenario.new_guard ["os.path.join"; "posixpath.join"] true 0 in
  let w := Scenario.rebind 2 "join" 4 Scenario.world0 in
  ∃ new,
    alerts (_scan_once Scenario.digest w s).2 = alerts s ++ new ∧
    List.filter (is_replaced_for "os.path.join") new
    = [Replaced "os.path.join" (be_fp Scenario.join_entry)
         (_fingerprint_callable Scenario.digest (heap w 4))].
Proof.
  intros s w.
  apply (scan_reports_replaced_once Scenario.digest w s
           [] "os.path.join" ["posixpath.join"] Scenario.join_entry
           w s 2%positive 4%positive "<module 'posixpath'>" "join").
  - vm_compute. reflexivity.
  - refine (bool_decide_unpack _ _); vm_compute; exact I.
  - refine (bool_decide_unpack _ _); vm_compute; exact I.
  - vm_compute. reflexivity.
  - reflexivity.
  - vm_compute. reflexivity.
  - vm_compute. discriminate.
Defined.

(** *** The post-execution checkpoint (C2) *)

(** C2. The program rebinds [posixpath.join] and calls [sys.exit(7)].
    [run] returns 7; no scan takes place, no alert is logged, and the
    binding is still the fake function when [run] returns. *)
Lemma exit_skips_post_scan :
  let s := Scenario.new_guard ["posixpath.join"] true 0 in
  let r := run Scenario.digest Scenario.cwd_abspath
             Scenario.patch_join_and_exit Scenario.world0 s "t.py" "" 0 1 in
  end_result r = Returns 7 ∧
  List.filter is_scan (end_events r) = [] ∧
  alerts (end_guard r) = [] ∧
  _resolve_dotted (end_world r) "posixpath.join"
    = Ok (2%positive, 4%positive, "<module 'posixpath'>", "join").
Proof. repeat split; vm_compute; reflexivity. Qed.

(** The same program, returning instead of exiting, is caught. *)
Lemma return_is_scanned :
  let s := Scenario.new_guard ["posixpath.join"] true 0 in
  let r := run Scenario.digest Scenario.cwd_abspath
             Scenario.patch_join Scenario.world0 s "t.py" "" 0 1 in
  end_result r = Returns 0 ∧
  List.filter is_scan (end_events r) = [ScanOnce] ∧
  alerts (end_guard r)
    = [Replaced "posixpath.join" (be_fp Scenario.join_entry)
         (_fingerprint_callable Scenario.digest (Scenario.heap0 4));
       RestoreOk "posixpath.join"].
Proof. repeat split; vm_compute; reflexivity. Qed.

(** *** Checkpoints and the interval (C3) *)

(** C3, as stated, fails here.  With interval 0 the events up to the
    start of the program are the two status lines: there is no scan
    before the program, and the run has one scan in all. *)
Lemma interval_zero_has_no_pre_scan :
  let s := Scenario.new_guard ["posixpath.join"] true 0 in
  let r := run Scenario.digest Scenario.cwd_abspath
             Scenario.patch_join Scenario.world0 s "t.py" "" 0 1 in
  (interval s == 0)%Q ∧
  take 3 (end_events r)
    = [Print "[patchtrap] sealed 1 targets, meta_path=ok, env=baseline saved";
       Print "[patchtrap] run begin: /work/t.py";
       RunPath "t.py" "__main__"] ∧
  List.filter is_scan (end_events r) = [ScanOnce].
Proof. repeat split; vm_compute; reflexivity. Qed.

(** *** Sealing (C4) *)

(** C4, as stated, fails here.  The first target does not resolve:
    [seal] raises, and the second target, which resolves, has no
    baseline entry. *)
Lemma seal_failure_blocks_rest :
  let s0 := __init__ Scenario.world0 ["nosuch.attr"; "posixpath.join"] true 0 in
  (seal Scenario.digest Scenario.world0 s0).2
    = Some (ModuleNotFoundError "nosuch") ∧
  _resolve_dotted Scenario.world0 "posixpath.join"
    = Ok (2%positive, 3%positive, "<module 'posixpath'>", "join") ∧
  baseline (seal Scenario.digest Scenario.world0 s0).1 !! "posixpath.join"
    = None.
Proof. repeat split; vm_compute; reflexivity. Qed.

(** *** Restore (C5) *)

(** C5, as stated, fails here.  [m.x.x] is watched; the program runs
    [m.x = m].  The scan finds the
    module where the function was, writes the function into [m.x] and
    logs restore-ok; the next resolution of [m.x.x] raises. *)
Lemma restore_ok_yet_target_unresolved :
  let s := Scenario.new_guard ["m.x.x"] true 0 in
  let w := Scenario.rebind 5 "x" 5 Scenario.world0 in
  let w' := (scan_target Scenario.digest (w, s) "m.x.x").1 in
  let s' := (scan_target Scenario.digest (w, s) "m.x.x").2 in
  auto_restore s = true ∧
  originals s !! "m.x.x" = Some 7%positive ∧
  alerts s'
    = [Replaced "m.x.x" (be_fp Scenario.f_entry)
         (_fingerprint_callable Scenario.digest (heap w 5));
       RestoreOk "m.x.x"] ∧
  _resolve_dotted w' "m.x.x" = Raise (AttributeError "function" "x").
Proof. repeat split; vm_compute; reflexivity. Qed.

Lemma restore_on_mismatch_witness :
  let s := Scenario.new_guard ["os.path.join"; "posixpath.join"] true 0 in
  let w := Scenario.rebind 2 "join" 4 Scenario.world0 in
  let w2 := (scan_target Scenario.digest (w, s) "os.path.join").1 in
  let s2 := (scan_target Scenario.digest (w, s) "os.path.join").2 in
  let w' := (_scan_once Scenario.digest w s).1 in
  alerts s2
    = alerts s ++ [Replaced "os.path.join" (be_fp Scenario.join_entry)
                     (_fingerprint_callable Scenario.digest (heap w 4));
                   RestoreOk "os.path.join"] ∧
  getattr (heap w2) 2 "join" = Ok 3%positive ∧
  _resolve_dotted w2 "os.path.join"
    = Ok (2%positive, 3%positive, "<module 'posixpath'>", "join") ∧
  _resolve_dotted w' "os.path.join"
    = Ok (2%positive, 3%positive, "<module 'posixpath'>", "join").
Proof.
  intros s w w2 s2 w'.
  assert (Hts : targets s = [] ++ "os.path.join" :: ["posixpath.join"])
    by (vm_compute; reflexivity).
  assert (Hscan : scan_targets Scenario.digest (w, s) [] = (w, s))
    by reflexivity.
  assert (Hres : _resolve_dotted w "os.path.join"
                 = Ok (2%positive, 4%positive, "<module 'posixpath'>", "join"))
    by (vm_compute; reflexivity).
  assert (Hbase : baseline s !! "os.path.join" = Some Scenario.join_entry)
    by (vm_compute; reflexivity).
  assert (Horig : originals s !! "os.path.join" = Some 3%positive)
    by (vm_compute; reflexivity).
  assert (Hne : fp_hash (_fingerprint_callable Scenario.digest (heap w 4))
                ≠ fp_hash (be_fp Scenario.join_entry))
    by (vm_compute; discriminate).
  destruct (restore_on_mismatch Scenario.digest w s
              [] "os.path.join" ["posixpath.join"] w s
              2%positive 4%positive "<module 'posixpath'>" "join"
              Scenario.join_entry 3%positive
              Hts Hscan Hres Hbase Horig Hne)
    as (_ & Hstep & _).
  change (auto_restore s) with true in Hstep.
  change (ob_setattr_error (heap w 2)) with (@None exn) in Hstep.
  destruct Hstep as (Ha & Hg & Hr).
  assert (Hnot : (2%positive, "join") ∉ resolve_hops w "os.path.join")
    by (refine (bool_decide_unpack _ _); vm_compute; exact I).
  destruct (Hr Hnot) as (Hr2 & Hend).
  split; [exact Ha|]. split; [exact Hg|]. split; [exact Hr2|].
  apply Hend.
  assert (Hslots : target_slots w2 "os.path.join"
                   = [(1%positive, "path"); (2%positive, "join")])
    by (vm_compute; reflexivity).
  fold w2. rewrite Hslots. intros r a Hin.
  apply elem_of_cons in Hin as [[= -> ->]|Hin].
  - vm_compute. reflexivity.
  - apply list_elem_of_singleton in Hin as [= -> ->].
    vm_compute. reflexivity.
Defined.

(** [pkg.a.f] and [pkg.b.f] are watched; the program runs
    [pkg.b = pkg.a; pkg.a.f = fake].  The scan restores [pkg.a.f] and
    logs restore-ok; the restore made for [pkg.b.f] then writes the
    same slot, and at the end of the scan [pkg.a.f] resolves to the
    function sealed for [pkg.b.f]. *)
Lemma later_restore_overwrites_earlier :
  let s := (seal Scenario.digest Scenario.world1
              (__init__ Scenario.world1 ["pkg.a.f"; "pkg.b.f"] true 0)).1 in
  let w := Scenario.rebind 9 "f" 4
             (Scenario.rebind 8 "b" 9 Scenario.world1) in
  originals s !! "pkg.a.f" = Some 11%positive ∧
  List.filter is_restore (alerts (_scan_once Scenario.digest w s).2)
    = [RestoreOk "pkg.a.f"; RestoreOk "pkg.b.f"] ∧
  _resolve_dotted (_scan_once Scenario.digest w s).1 "pkg.a.f"
    = Ok (9%positive, 12%positive, "namespace()", "f").
Proof. repeat split; vm_compute; reflexivity. Qed.

(** *** The report (C7) *)

(** C7, as stated, fails here.  The wall clock reads 10 at the start
    and 5 at teardown: the report carries a negative duration.  The last event of the run is the
    status line, the dump comes just before it. *)
Lemma clock_set_back_gives_negative_duration :
  let s := Scenario.new_guard ["posixpath.join"] true 0 in
  let r := run Scenario.digest Scenario.cwd_abspath
             Scenario.patch_join Scenario.world0 s "t.py" "" 10 5 in
  duration_sec <$> report (end_guard r) = Some (Qmake (-5000) 1000) ∧
  (Qmake (-5000) 1000 < 0)%Q ∧
  last (end_events r)
    = Some (Print "[patchtrap] report saved: patchtrap_report.json").
Proof. repeat split; vm_compute; reflexivity. Qed.

Lemma run_report_complete_witness :
  let s := Scenario.new_guard ["posixpath.join"] true 0 in
  let r := run Scenario.digest Scenario.cwd_abspath
             Scenario.patch_join_and_exit Scenario.world0 s "t.py" "" 5 10 in
  (5 <= 10)%Q ∧
  ∃ rep, report (end_guard r) = Some rep ∧ (0 <= duration_sec rep)%Q.
Proof.
  intros s r.
  assert (H : (5 <= 10)%Q) by (vm_compute; discriminate).
  split; [exact H|].
  destruct (run_report_complete Scenario.digest Scenario.cwd_abspath
              Scenario.patch_join_and_exit Scenario.world0 s "t.py" "" 5 10)
    as (before & rep & _ & _ & Hrep & _ & Hdur & _).
  exists rep. split; [exact Hrep|exact (Hdur H)].
Defined.

(** *** Fingerprint categories (C9) *)

(** C9, as stated, fails here.  A callable instance whose class carries
    the module name
    [not-callable:'a] and the qualified name [b], and whose repr is
    [c'], gets the tag of the string ['a.b:c']: the two values are of
    different categories and have the same hash. *)
Lemma crafted_callable_collides_with_str :
  classify Scenario.crafted_callable = GenericCallable ∧
  classify Scenario.plain_str = NonCallable ∧
  fp_hash (_fingerprint_callable Scenario.digest Scenario.crafted_callable)
  = fp_hash (_fingerprint_callable Scenario.digest Scenario.plain_str).
Proof.
  split; [reflexivity|]. split; [reflexivity|]. vm_compute. reflexivity.
Qed.

Lemma category_separation_witness :
  fp_hash (_fingerprint_callable Scenario.digest (Scenario.heap0 3))
  ≠ fp_hash (_fingerprint_callable Scenario.digest Scenario.plain_str).
Proof.
  refine (proj1 (category_separation Scenario.digest
                   (Scenario.heap0 3) Scenario.plain_str _ _) _).
  - vm_compute. discriminate.
  - vm_compute. discriminate.
  - vm_compute. discriminate.
Defined.

(** ** Further properties of the code *)

Section Further.

Variable sha256 : string -> string.
Variable abspath : string -> string.
Variable run_path : string -> world -> world * outcome.

Abbreviation fingerprint_of := (_fingerprint_callable sha256).
Abbreviation scan_step := (scan_target sha256).
Abbreviation scan := (_scan_once sha256).
Abbreviation run_guard := (run sha256 abspath run_path).

(** *** Sealing, then scanning at once *)

(** What [seal_loop] leaves in the guard: entries for the targets it
    went through, nothing else touched. *)
Lemma seal_loop_entries w ts : ∀ s s' r,
  seal_loop sha256 w ts s = (s', r) ->
  targets s' = targets s ∧ auto_restore s' = auto_restore s ∧
  interval s' = interval s ∧ meta_path0 s' = meta_path0 s ∧
  env0 s' = env0 s ∧ alerts s' = alerts s ∧ report s' = report s ∧
  (∀ d, d ∉ ts -> baseline s' !! d = baseline s !! d ∧
                  originals s' !! d = originals s !! d) ∧
  (r = None ->
   ∀ d, d ∈ ts ->
     ∃ container val label attr,
       _resolve_dotted w d = Ok (container, val, label, attr) ∧
       baseline s' !! d
         = Some {| be_fp := fingerprint_of (heap w val);
                   be_container := label; be_attr := attr |} ∧
       originals s' !! d = Some val).
Proof.
  induction ts as [|d ts IH]; intros s s' r H; simpl in H.
  - inversion H; subst. repeat split; try done.
    intros _ d Hd. by inversion Hd.
  - destruct (_resolve_dotted w d) as [[[[c v] lab] a]|e] eqn:Hres.
    2:{ inversion H; subst. repeat split; try done. }
    apply IH in H as (Ht & Har & Hi & Hm & He & Hal & Hrep & Hout & Hin).
    repeat split; try done.
    + apply not_elem_of_cons in H as [Hne Hd].
      destruct (Hout d0 Hd) as [-> _]. simpl. by rewrite lookup_insert_ne.
    + apply not_elem_of_cons in H as [Hne Hd].
      destruct (Hout d0 Hd) as [_ ->]. simpl. by rewrite lookup_insert_ne.
    + intros -> d' Hd'. destruct (decide (d' ∈ ts)) as [Hs|Hs]; [by auto|].
      apply elem_of_cons in Hd' as [->|?]; [|done].
      destruct (Hout d Hs) as [Hb Ho]. exists c, v, lab, a.
      split; [done|]. rewrite Hb, Ho. simpl. by rewrite !lookup_insert_eq.
Qed.

Lemma scan_targets_quiet w s ts :
  (∀ d, d ∈ ts ->
     ∃ container val label attr base,
       _resolve_dotted w d = Ok (container, val, label, attr) ∧
       baseline s !! d = Some base ∧
       fp_hash (fingerprint_of (heap w val)) = fp_hash (be_fp base)) ->
  scan_targets sha256 (w, s) ts = (w, s).
Proof.
  induction ts as [|d ts IH]; intros H; [done|].
  rewrite scan_targets_cons.
  destruct (H d) as (c & v & lab & a & base & Hres & Hb & Hh); [by left|].
  assert (Hstep : scan_step (w, s) d = (w, s)).
  { unfold scan_target. by rewrite Hres, Hb, Hh, String.eqb_refl. }
  rewrite Hstep. apply IH. intros d' Hd'. apply H. by right.
Qed.

Lemma env_alert_same env : env_alert env env = None.
Proof.
  rewrite env_alert_spec. case_decide as H; [done|]. destruct H.
  repeat split; apply map_empty; intros k.
  - unfold spec_added. apply map_lookup_filter_None. right.
    intros x Hx. simpl. by rewrite Hx.
  - unfold spec_removed. apply map_lookup_filter_None. right.
    intros x Hx. simpl. by rewrite Hx.
  - unfold spec_changed. rewrite lookup_merge.
    destruct (env !! k); simpl; [|done]. by case_decide.
Qed.

(** X1. A guard created and sealed in some process state reports
    nothing when that same state is scanned: no alert is appended and
    no binding is written. *)
Theorem seal_then_scan_quiet w ts ar i s :
  seal sha256 w (__init__ w ts ar i) = (s, None) ->
  scan w s = (w, s).
Proof.
  unfold seal. intros H.
  apply seal_loop_entries in H
    as (Ht & _ & _ & Hm & He & _ & _ & _ & Hin). simpl in *.
  unfold _scan_once. rewrite scan_targets_quiet.
  - unfold scan_meta_path. rewrite Hm, decide_True by done.
    unfold scan_env. by rewrite He, env_alert_same.
  - rewrite Ht. intros d Hd.
    destruct (Hin eq_refl d Hd) as (c & v & lab & a & Hres & Hb & _).
    by eexists c, v, lab, a, _.
Qed.

(** *** Errors of [_resolve_dotted] *)

Lemma str_split_no_sep sep s :
  contains sep s = false -> str_split sep s = [s].
Proof.
  induction s as [|c s IH]; simpl; [done|].
  intros H. apply orb_false_iff in H as [Hc Hs].
  rewrite Hc, (IH Hs). done.
Qed.

Lemma str_split_first sep m tail :
  contains sep m = false ->
  str_split sep (m +:+ String sep tail) = m :: str_split sep tail.
Proof.
  induction m as [|c m IH]; simpl.
  - intros _. by rewrite Ascii.eqb_refl.
  - intros H. apply orb_false_iff in H as [Hc Hm].
    rewrite Hc, (IH Hm). done.
Qed.


(** X2. A name without a dot is rejected with [ValueError], whatever
    the modules and objects of the process are. *)
Theorem resolve_rejects_undotted w name :
  contains "." name = false ->
  _resolve_dotted w name = Raise (ValueError ("invalid dotted name: " +:+ name)).
Proof.
  intros H. unfold _resolve_dotted. by rewrite (str_split_no_sep _ _ H).
Qed.


(** X4. For a two-part name [m.a] whose module exists but has no
    attribute [a], the resolution raises [AttributeError] naming the
    attribute. *)
Theorem resolve_missing_attribute w m a mod_ :
  contains "." m = false ->
  contains "." a = false ->
  modules w !! m = Some mod_ ->
  ob_attrs (heap w mod_) !! a = None ->
  _resolve_dotted w (m +:+ "." +:+ a)
  = Raise (AttributeError (type_name (heap w mod_)) a).
Proof.
  intros Hm Ha Hmod Hattr. unfold _resolve_dotted.
  change ("." +:+ a) with (String "." a).
  rewrite (str_split_first _ _ _ Hm), (str_split_no_sep _ _ Ha).
  unfold import_module. rewrite Hmod. simpl.
  unfold getattr. by rewrite Hattr.
Qed.

(** *** The import-hook check *)

Lemma target_alert_not_meta a d :
  alert_target a = Some d -> is_meta_path_changed a = false.
Proof. by destruct a. Qed.

(** X5. One scan appends exactly one [meta_path_changed] alert, with
    the sealed and the current list of hook type names, when the two
    lists differ (in length, order or content), and none when they are
    equal. *)
Theorem meta_path_diff w s :
  ∃ new,
    alerts (scan w s).2 = alerts s ++ new ∧
    List.filter is_meta_path_changed new
    = if decide (meta_path w = meta_path0 s) then []
      else [MetaPathChanged (meta_path0 s) (meta_path w)].
Proof.
  unfold _scan_once.
  destruct (scan_targets sha256 (w, s) (targets s)) as [w1 s1] eqn:Ht.
  simpl.
  apply scan_targets_frame in Ht
    as ((_ & Hmp & _ & _) & Hs1 & n1 & Ha1 & Hf1).
  assert (Hm0 : meta_path0 s1 = meta_path0 s)
    by (by destruct Hs1 as (_&_&_&_&_&E&_)).
  destruct (scan_env_frame w1 (scan_meta_path w1 s1)) as (_ & n3 & Ha3 & Hf3).
  assert (Hn1 : List.filter is_meta_path_changed n1 = []).
  { apply filter_none. eapply Forall_impl; [exact Hf1|].
    intros a (d & _ & Ha). by eapply target_alert_not_meta. }
  assert (Hn3 : List.filter is_meta_path_changed n3 = []).
  { apply filter_none. eapply Forall_impl; [exact Hf3|].
    intros a Ha. by destruct a. }
  rewrite Ha3. unfold scan_meta_path. rewrite Hmp, Hm0.
  case_decide.
  - exists (n1 ++ n3). split.
    + by rewrite Ha1, <- app_assoc.
    + by rewrite List.filter_app, Hn1, Hn3.
  - eexists (n1 ++ [_] ++ n3). split.
    + simpl. by rewrite Ha1, <- !app_assoc.
    + rewrite !List.filter_app, Hn1, Hn3. done.
Qed.

(** *** What a scan and a run leave alone *)

Lemma scan_target_report w s d : report (scan_step (w, s) d).2 = report s.
Proof.
  unfold scan_target, restore.
  destruct (_resolve_dotted w d) as [[[[c cur] cq] attr]|e]; [|done].
  destruct (baseline s !! d); [|done].
  destruct (negb _); [|done].
  destruct (auto_restore _); [|done].
  by destruct (bind _ _).
Qed.

Lemma scan_targets_report ts : ∀ w s,
  report (scan_targets sha256 (w, s) ts).2 = report s.
Proof.
  induction ts as [|d ts IH]; intros w s; [done|].
  rewrite scan_targets_cons.
  pose proof (scan_target_report w s d) as H.
  destruct (scan_step (w, s) d) as [w1 s1]. by rewrite IH.
Qed.

Lemma scan_once_report w s : report (scan w s).2 = report s.
Proof.
  unfold _scan_once.
  pose proof (scan_targets_report (targets s) w s) as H.
  destruct (scan_targets sha256 (w, s) (targets s)) as [w1 s1]. simpl in *.
  unfold scan_env, scan_meta_path.
  destruct (env_alert _ _); case_decide; simpl; done.
Qed.

(** X6. A scan does not change the configuration of the guard
    (targets, flags, baseline, retained originals, sealed hook list and
    environment) nor its report; it only appends to the alert log. *)
Theorem scan_keeps_guard_config w s :
  let s' := (scan w s).2 in
  same_config s s' ∧ report s' = report s ∧
  ∃ new, alerts s' = alerts s ++ new.
Proof.
  intros s'. subst s'.
  destruct (scan w s) as [w1 s1] eqn:Hs.
  pose proof (scan_once_report w s) as Hrep. rewrite Hs in Hrep.
  apply scan_once_frame in Hs as (_ & Hc & Hn). done.
Qed.

(** *** Alerts and events of a run *)

Lemma scan_once_no_exception_alert w s :
  ∃ new, alerts (scan w s).2 = alerts s ++ new ∧
         Forall (λ a, is_exception_alert a = false) new.
Proof.
  unfold _scan_once.
  destruct (scan_targets sha256 (w, s) (targets s)) as [w1 s1] eqn:Ht.
  simpl.
  apply scan_targets_frame in Ht as (_ & _ & n1 & Ha1 & Hf1).
  destruct (scan_env_frame w1 (scan_meta_path w1 s1)) as (_ & n3 & Ha3 & Hf3).
  rewrite Ha3. unfold scan_meta_path. case_decide; simpl.
  - exists (n1 ++ n3). split; [by rewrite Ha1, <- app_assoc|].
    apply Forall_app. split.
    + eapply Forall_impl; [exact Hf1|]. intros a (d & _ & Ha). by destruct a.
    + eapply Forall_impl; [exact Hf3|]. intros a Ha. by destruct a.
  - eexists (n1 ++ [_] ++ n3). split; [by rewrite Ha1, <- !app_assoc|].
    rewrite !Forall_app. repeat split.
    + eapply Forall_impl; [exact Hf1|]. intros a (d & _ & Ha). by destruct a.
    + by repeat constructor.
    + eapply Forall_impl; [exact Hf3|]. intros a Ha. by destruct a.
Qed.

(** The alert log after a run: the alerts of the scans, then the
    exception alert if the program failed. *)
Lemma run_alerts w s path args t0 t1 :
  ∃ scanned,
    alerts (end_guard (run_guard w s path args t0 t1))
    = alerts s ++ scanned
        ++ match program_outcome sha256 run_path w s path args with
           | Failed e => [ExceptionAlert (repr_exn e)]
           | _ => []
           end ∧
    Forall (λ a, is_exception_alert a = false) scanned.
Proof.
  unfold run, program_outcome, entry_world, run_try.
  set (w0 := set_argv _ w).
  destruct (Qlt_le_dec 0 (interval s)).
  - destruct (scan_once_no_exception_alert w0 s) as (na & Hna & Hfa).
    destruct (_scan_once sha256 w0 s) as [wa sa]; simpl in *.
    destruct (run_path path wa) as [wb ob]; simpl.
    destruct ob as [|code|e|b]; simpl.
    + destruct (scan_once_no_exception_alert wb sa) as (nc & Hnc & Hfc).
      destruct (_scan_once sha256 wb sa) as [wc sc]; simpl in *.
      exists (na ++ nc). split.
      * by rewrite Hnc, Hna, app_nil_r, <- app_assoc.
      * by apply Forall_app.
    + exists na. split; [|done].
      destruct (exit_status code); simpl; by rewrite Hna, app_nil_r.
    + exists na. split; [|done]. by rewrite Hna, <- app_assoc.
    + exists na. split; [|done]. by rewrite Hna, app_nil_r.
  - destruct (run_path path w0) as [wb ob]; simpl.
    destruct ob as [|code|e|b]; simpl.
    + destruct (scan_once_no_exception_alert wb s) as (nc & Hnc & Hfc).
      destruct (_scan_once sha256 wb s) as [wc sc]; simpl in *.
      exists nc. split; [|done]. by rewrite Hnc, app_nil_r.
    + exists []. split; [|done].
      destruct (exit_status code); simpl; by rewrite app_nil_r.
    + exists []. by split.
    + exists []. split; [|done]. by rewrite app_nil_r.
Qed.

(** X7. A run logs an [exception] alert exactly when an [Exception]
    escaped the guarded program: then one alert with the repr of that
    exception, placed after all other alerts; after a normal end, a
    [SystemExit] or an exception [run] does not catch, none. *)
Theorem exception_alert_iff_failure w s path args t0 t1 :
  ∃ new,
    alerts (end_guard (run sha256 abspath run_path w s path args t0 t1))
    = alerts s ++ new ∧
    match program_outcome sha256 run_path w s path args with
    | Failed e =>
        List.filter is_exception_alert new = [ExceptionAlert (repr_exn e)] ∧
        last new = Some (ExceptionAlert (repr_exn e))
    | _ => List.filter is_exception_alert new = []
    end.
Proof.
  destruct (run_alerts w s path args t0 t1) as (scanned & Ha & Hf).
  eexists. split; [exact Ha|].
  rewrite List.filter_app, (filter_none _ _ Hf).
  destruct (program_outcome _ _ _ _ _ _); simpl; try done.
  split; [done|]. by rewrite last_snoc.
Qed.

Lemma handler_events_prints o :
  Forall (λ e, is_run_path e = false ∧ is_sleep e = false) (handler_events o).
Proof.
  destruct o as [|code|e|b]; simpl; try (by repeat constructor).
  destruct (exit_status code); by repeat constructor.
Qed.


(** X9. A non-positive interval given to the constructor is the
    interval 0: the guard is the same, so the run neither scans before
    the program nor sleeps. *)
Theorem nonpositive_interval_is_zero w ts ar i path args t0 t1 :
  (i <= 0)%Q ->
  __init__ w ts ar i = __init__ w ts ar 0 ∧
  let r := run sha256 abspath run_path w (__init__ w ts ar i) path args t0 t1 in
  List.filter is_sleep (end_events r) = [] ∧
  ∃ p1 p2 rest,
    end_events r = Print p1 :: Print p2 :: RunPath path "__main__" :: rest.
Proof.
  intros Hi.
  assert (Hc : clamp_interval i = 0%Q).
  { unfold clamp_interval. destruct (Qlt_le_dec 0 i) as [Hlt|_]; [|done].
    exfalso. by apply (Qlt_not_le _ _ Hlt). }
  assert (Heq : __init__ w ts ar i = __init__ w ts ar 0).
  { unfold __init__. by rewrite Hc. }
  split; [exact Heq|]. rewrite Heq. intros r.
  destruct (run_events sha256 abspath run_path w (__init__ w ts ar 0)
              path args t0 t1) as (rep & _ & _ & Hev).
  fold r in Hev. simpl in Hev. split.
  - rewrite Hev. simpl.
    assert (Hh : List.filter is_sleep
                   (handler_events
                      (program_outcome sha256 run_path w
                         (__init__ w ts ar 0) path args)) = []).
    { apply filter_none. eapply Forall_impl; [apply handler_events_prints|].
      by intros ? [_ ?]. }
    destruct (program_outcome _ _ _ _ _ _); simpl in *;
      rewrite ?List.filter_app, ?Hh; done.
  - do 3 eexists. exact Hev.
Qed.

(** X10. With auto-restore off the harness writes to no object: the
    guarded program starts on the heap [run] was called on, and the
    heap when [run] ends is the one the program left. *)
Theorem run_without_auto_restore_keeps_heap w s path args t0 t1 :
  auto_restore s = false ->
  let entry := entry_world sha256 w s path args in
  heap entry = heap w ∧
  heap (end_world (run sha256 abspath run_path w s path args t0 t1))
  = heap (run_path path entry).1.
Proof.
  intros Har. unfold run, entry_world, run_try.
  set (w0 := set_argv _ w).
  destruct (Qlt_le_dec 0 (interval s)).
  - destruct (scan_once_no_restore sha256 w0 s Har) as (Hwa & _).
    destruct (_scan_once sha256 w0 s) as [wa sa] eqn:Ha; simpl in *.
    subst wa. split; [done|].
    apply scan_once_frame in Ha as (_ & (_ & Har' & _) & _).
    destruct (run_path path w0) as [wb ob]; simpl.
    destruct ob as [|code|e|b]; simpl.
    + destruct (scan_once_no_restore sha256 wb sa) as (Hwc & _);
        [congruence|].
      destruct (_scan_once sha256 wb sa) as [wc sc]; simpl in *. by subst.
    + by destruct (exit_status code).
    + done.
    + done.
  - split; [done|].
    destruct (run_path path w0) as [wb ob]; simpl.
    destruct ob as [|code|e|b]; simpl.
    + destruct (scan_once_no_restore sha256 wb s Har) as (Hwc & _).
      destruct (_scan_once sha256 wb s) as [wc sc]; simpl in *. by subst.
    + by destruct (exit_status code).
    + done.
    + done.
Qed.

(** *** Retained originals and restore alerts *)

Lemma seal_loop_paired w ts : ∀ s,
  (∀ d, is_Some (baseline s !! d) -> is_Some (originals s !! d)) ->
  ∀ d, is_Some (baseline (seal_loop sha256 w ts s).1 !! d) ->
       is_Some (originals (seal_loop sha256 w ts s).1 !! d).
Proof.
  induction ts as [|t ts IH]; intros s Hs; simpl; [done|].
  destruct (_resolve_dotted w t) as [[[[c v] lab] a]|e]; [|done].
  apply IH. intros d. simpl.
  destruct (decide (t = d)) as [->|Hne].
  - rewrite !lookup_insert_eq. by eauto.
  - rewrite !lookup_insert_ne by done. apply Hs.
Qed.

(** X11. In a guard made by the constructor and [seal], also after a
    scan, every target that has a baseline entry has a retained
    original: the lookup [self.originals[dotted]] of the restore cannot
    raise [KeyError]. *)
Theorem sealed_target_has_original w0 ts ar i w d :
  let s := (seal sha256 w0 (__init__ w0 ts ar i)).1 in
  let s' := (scan w s).2 in
  is_Some (baseline s' !! d) ->
  ∃ v, original_of s' d = Ok v.
Proof.
  intros s s' Hb. subst s'.
  destruct (scan w s) as [w1 s1] eqn:Hscan. simpl in *.
  apply scan_once_frame in Hscan as (_ & (_&_&_&Hbase&Horig&_) & _).
  rewrite Hbase in Hb. unfold original_of. rewrite Horig.
  assert (Ho : is_Some (originals s !! d)).
  { subst s. unfold seal. apply seal_loop_paired; [|exact Hb].
    intros d' H'. simpl in H'. rewrite lookup_empty in H'.
    by destruct H'. }
  destruct Ho as [v ->]. by exists v.
Qed.

Lemma restore_balance_app (ar : bool) (n1 n2 : list alert) :
  length (List.filter is_restore n1)
    = (if ar then length (List.filter is_replaced n1) else 0) ->
  length (List.filter is_restore n2)
    = (if ar then length (List.filter is_replaced n2) else 0) ->
  length (List.filter is_restore (n1 ++ n2))
    = (if ar then length (List.filter is_replaced (n1 ++ n2)) else 0).
Proof.
  intros H1 H2. rewrite !List.filter_app, !length_app, H1, H2.
  by destruct ar.
Qed.

Lemma scan_target_balance w s d :
  ∃ new,
    alerts (scan_step (w, s) d).2 = alerts s ++ new ∧
    length (List.filter is_restore new)
      = (if auto_restore s then length (List.filter is_replaced new) else 0).
Proof.
  unfold scan_target, restore.
  destruct (_resolve_dotted w d) as [[[[c cur] cq] attr]|e]; simpl.
  2:{ eexists. split; [done|]. by destruct (auto_restore s). }
  assert (Hnil : ∃ new, alerts s = alerts s ++ new ∧
            length (List.filter is_restore new)
            = (if auto_restore s then length (List.filter is_replaced new)
               else 0)).
  { exists []. rewrite app_nil_r. by destruct (auto_restore s). }
  destruct (baseline s !! d) as [base|]; [|done].
  destruct (negb _); [|done]. simpl.
  destruct (auto_restore s) eqn:Har; simpl.
  - destruct (bind _ _); simpl; eexists [_; _];
      (split; [by rewrite <- app_assoc|done]).
  - by eexists [_].
Qed.

Lemma scan_targets_balance ts : ∀ w s,
  ∃ new,
    alerts (scan_targets sha256 (w, s) ts).2 = alerts s ++ new ∧
    length (List.filter is_restore new)
      = (if auto_restore s then length (List.filter is_replaced new) else 0).
Proof.
  induction ts as [|d ts IH]; intros w s.
  - exists []. rewrite app_nil_r. by destruct (auto_restore s).
  - rewrite scan_targets_cons.
    destruct (scan_target_balance w s d) as (n1 & Ha1 & Hb1).
    destruct (scan_step (w, s) d) as [w1 s1] eqn:Hstep. simpl in *.
    apply scan_target_frame in Hstep as (_ & (_ & Har & _) & _).
    destruct (IH w1 s1) as (n2 & Ha2 & Hb2). rewrite Har in Hb2.
    exists (n1 ++ n2). split; [by rewrite Ha2, Ha1, <- app_assoc|].
    by apply restore_balance_app.
Qed.

(** X12. In the alerts one scan appends, with auto-restore on there are
    as many restore alerts (ok or fail) as [replaced] alerts: one
    restore attempt per mismatch found, none without a mismatch.  With
    auto-restore off there is no restore alert. *)
Theorem one_restore_per_mismatch w s :
  ∃ new,
    alerts (scan w s).2 = alerts s ++ new ∧
    length (List.filter is_restore new)
      = if auto_restore s then length (List.filter is_replaced new) else 0.
Proof.
  unfold _scan_once.
  destruct (scan_targets_balance (targets s) w s) as (n1 & Ha1 & Hb1).
  destruct (scan_targets sha256 (w, s) (targets s)) as [w1 s1]. simpl in *.
  destruct (scan_meta_path_frame w1 s1) as (_ & n2 & Ha2 & Hf2).
  destruct (scan_env_frame w1 (scan_meta_path w1 s1)) as (_ & n3 & Ha3 & Hf3).
  exists (n1 ++ n2 ++ n3). split; [by rewrite Ha3, Ha2, Ha1, <- !app_assoc|].
  apply restore_balance_app; [done|].
  rewrite !List.filter_app, !length_app.
  rewrite (filter_none is_restore n2), (filter_none is_restore n3),
    (filter_none is_replaced n2), (filter_none is_replaced n3);
    [by destruct (auto_restore s)|..].
  - eapply Forall_impl; [exact Hf3|]. intros a Ha. by destruct a.
  - eapply Forall_impl; [exact Hf2|]. intros a [Ha _]. by destruct a.
  - eapply Forall_impl; [exact Hf3|]. intros a Ha. by destruct a.
  - eapply Forall_impl; [exact Hf2|]. intros a [Ha _]. by destruct a.
Qed.

(** *** What the fingerprint reads *)

(** X13. Only the first 80 characters of [repr(obj)] enter a
    fingerprint: an object whose repr differs from another's after the
    80th character, all else equal, has the same fingerprint. *)
Theorem repr_tail_is_invisible o r1 r2 :
  ob_repr o = Ok r1 ->
  str_take 80 r1 = str_take 80 r2 ->
  fingerprint_of (with_repr (Ok r2) o) = fingerprint_of o.
Proof.
  intros Hr Htake.
  unfold _fingerprint_callable, fingerprint_parts, fingerprint_try,
    module_attr, qualname_or_name, type_name.
  destruct o as [k cn cm cq m q n r at_ se]. simpl in *. subst r.
  destruct k as [c|[c|e]| | |]; simpl; rewrite ?Htake; reflexivity.
Qed.

(** X14. The hash of a Python function is the digest of its six code
    fields joined by [||]: two functions with the same code fields have
    the same hash, whatever their module, names, repr and attributes. *)
Theorem function_hash_reads_code_only o1 o2 c :
  ob_kind o1 = PyFunction c ->
  ob_kind o2 = PyFunction c ->
  is_Some (ob_module o1) ->
  is_Some (ob_module o2) ->
  fp_hash (fingerprint_of o1) = sha256 (join_payload c) ∧
  fp_hash (fingerprint_of o2) = fp_hash (fingerprint_of o1).
Proof.
  intros H1 H2 [m1 Hm1] [m2 Hm2].
  unfold _fingerprint_callable, fingerprint_parts, fingerprint_try,
    module_attr.
  by rewrite H1, H2, Hm1, Hm2.
Qed.

Lemma fingerprint_with_attr a v o :
  fingerprint_of (with_attr a v o) = fingerprint_of o.
Proof. by destruct o as [[c|[c|e]| | |] cn cm cq m q n r at_ se]. Qed.

Lemma fingerprint_insert (h : ref -> object) r a v x :
  fingerprint_of ((<[r := with_attr a v (h r)]> h) x) = fingerprint_of (h x).
Proof.
  destruct (decide (r = x)) as [->|Hne].
  - by rewrite fn_lookup_insert, fingerprint_with_attr.
  - by rewrite fn_lookup_insert_ne.
Qed.

(** X16. After a successful restore the target is quiet: when the
    retained original still has its sealed hash and the slot written is
    not read on the way to the container, scanning the target again
    right away changes nothing more. *)
Theorem restored_target_is_quiet w s d c cur cq attr base orig :
  _resolve_dotted w d = Ok (c, cur, cq, attr) ->
  baseline s !! d = Some base ->
  originals s !! d = Some orig ->
  fp_hash (fingerprint_of (heap w cur)) ≠ fp_hash (be_fp base) ->
  auto_restore s = true ->
  ob_setattr_error (heap w c) = None ->
  (c, attr) ∉ resolve_hops w d ->
  fp_hash (fingerprint_of (heap w orig)) = fp_hash (be_fp base) ->
  scan_step (scan_step (w, s) d) d = scan_step (w, s) d.
Proof.
  intros Hres Hbase Horig Hne Har Hset Hhops Hsame.
  rewrite (scan_target_mismatch _ _ _ _ _ _ _ _ _ Hres Hbase Hne). simpl.
  rewrite Har. unfold restore, original_of, setattr. simpl.
  rewrite Horig. simpl. rewrite Hset.
  unfold scan_target.
  rewrite (resolve_after_setattr _ _ _ _ _ _ _ Hres Hhops). simpl.
  rewrite Hbase. simpl. by rewrite fingerprint_insert, Hsame, String.eqb_refl.
Qed.

(** *** Targets that do not resolve, guards that were not sealed *)

Lemma other_target_not_resolve_error a d d' :
  alert_target a = Some d' -> d' ≠ d -> is_resolve_error_for d a = false.
Proof.
  destruct a; simpl; try done. intros [= ->] Hne. by apply String.eqb_neq.
Qed.

(** X17. A target that occurs once in the list and whose resolution
    raises when the loop of the scan reaches it gets exactly one
    [resolve_error] alert and no [replaced] alert.  The scan then goes
    on: the targets after it are scanned from the same process state,
    with that alert in the log, and the hook and environment checks
    follow. *)
Theorem scan_reports_resolve_error_once w s before_d d after_d w1 s1 e :
  targets s = before_d ++ d :: after_d ->
  d ∉ before_d -> d ∉ after_d ->
  scan_targets sha256 (w, s) before_d = (w1, s1) ->
  _resolve_dotted w1 d = Raise e ->
  ∃ text,
    scan w s
    = (let '(w3, s3) :=
         scan_targets sha256
           (w1, append_alert (ResolveError d text) s1) after_d in
       (w3, scan_env w3 (scan_meta_path w3 s3))) ∧
    ∃ new,
      alerts (scan w s).2 = alerts s ++ new ∧
      List.filter (is_resolve_error_for d) new = [ResolveError d text] ∧
      List.filter (is_replaced_for d) new = [].
Proof.
  intros Hts Hpre Hpost Hscan Hres. exists (repr_exn e).
  assert (Hstep : scan_step (w1, s1) d
                  = (w1, append_alert (ResolveError d (repr_exn e)) s1)).
  { unfold scan_target. by rewrite Hres. }
  assert (Hrest : scan w s
            = let '(w3, s3) :=
                scan_targets sha256
                  (w1, append_alert (ResolveError d (repr_exn e)) s1)
                  after_d in
              (w3, scan_env w3 (scan_meta_path w3 s3))).
  { unfold _scan_once.
    by rewrite Hts, scan_targets_app, Hscan, scan_targets_cons, Hstep. }
  split; [exact Hrest|]. rewrite Hrest. clear Hrest.
  destruct (scan_targets_frame _ _ _ _ _ _ Hscan) as (_ & _ & n1 & Ha1 & Hf1).
  destruct (scan_targets sha256 (w1, append_alert _ s1) after_d)
    as [w3 s3] eqn:Hpost_scan.
  apply scan_targets_frame in Hpost_scan as (_ & _ & n3 & Ha3 & Hf3).
  destruct (scan_meta_path_frame w3 s3) as (_ & n4 & Ha4 & Hf4).
  destruct (scan_env_frame w3 (scan_meta_path w3 s3)) as (_ & n5 & Ha5 & Hf5).
  exists (n1 ++ ResolveError d (repr_exn e) :: n3 ++ n4 ++ n5).
  split.
  { simpl in *. rewrite Ha5, Ha4, Ha3. simpl. rewrite Ha1.
    by rewrite <- !app_assoc. }
  assert (H1 : Forall (λ a, is_resolve_error_for d a = false
                            ∧ is_replaced_for d a = false) n1).
  { eapply Forall_impl; [exact Hf1|]. intros a (d' & Hin & Ha).
    assert (d' ≠ d) by (by intros ->).
    split; [by eapply other_target_not_resolve_error
           |by eapply other_target_not_replaced]. }
  assert (H3 : Forall (λ a, is_resolve_error_for d a = false
                            ∧ is_replaced_for d a = false) n3).
  { eapply Forall_impl; [exact Hf3|]. intros a (d' & Hin & Ha).
    assert (d' ≠ d) by (by intros ->).
    split; [by eapply other_target_not_resolve_error
           |by eapply other_target_not_replaced]. }
  assert (H4 : Forall (λ a, is_resolve_error_for d a = false
                            ∧ is_replaced_for d a = false) n4).
  { eapply Forall_impl; [exact Hf4|]. intros a [Ha _]. by destruct a. }
  assert (H5 : Forall (λ a, is_resolve_error_for d a = false
                            ∧ is_replaced_for d a = false) n5).
  { eapply Forall_impl; [exact Hf5|]. intros a Ha. by destruct a. }
  split.
  - rewrite List.filter_app. simpl. rewrite String.eqb_refl.
    rewrite !List.filter_app.
    rewrite (filter_none _ n1), (filter_none _ n3), (filter_none _ n4),
      (filter_none _ n5); [done|..];
      (eapply Forall_impl; [eassumption|]; by intros ? [? _]).
  - rewrite List.filter_app. simpl. rewrite !List.filter_app.
    rewrite (filter_none _ n1), (filter_none _ n3), (filter_none _ n4),
      (filter_none _ n5); [done|..];
      (eapply Forall_impl; [eassumption|]; by intros ? [_ ?]).
Qed.

Lemma scan_target_unsealed w s d :
  baseline s = ∅ ->
  (scan_step (w, s) d).1 = w ∧
  ∃ new, alerts (scan_step (w, s) d).2 = alerts s ++ new ∧
         Forall (λ a, is_replaced a = false ∧ is_restore a = false) new.
Proof.
  intros Hb. unfold scan_target. rewrite Hb, lookup_empty.
  destruct (_resolve_dotted w d) as [[[[c cur] cq] attr]|e]; simpl.
  - split; [done|]. exists []. by rewrite app_nil_r.
  - split; [done|]. eexists. split; [done|]. by repeat constructor.
Qed.

Lemma scan_targets_unsealed ts : ∀ w s,
  baseline s = ∅ ->
  (scan_targets sha256 (w, s) ts).1 = w ∧
  ∃ new, alerts (scan_targets sha256 (w, s) ts).2 = alerts s ++ new ∧
         Forall (λ a, is_replaced a = false ∧ is_restore a = false) new.
Proof.
  induction ts as [|d ts IH]; intros w s Hb.
  - split; [done|]. exists []. by rewrite app_nil_r.
  - rewrite scan_targets_cons.
    destruct (scan_target_unsealed w s d Hb) as (Hw & n1 & Ha1 & Hf1).
    destruct (scan_step (w, s) d) as [w1 s1] eqn:Hstep. simpl in *. subst w1.
    apply scan_target_frame in Hstep as (_ & (_&_&_&Hb1&_) & _).
    destruct (IH w s1) as (Hw2 & n2 & Ha2 & Hf2); [congruence|].
    split; [done|]. exists (n1 ++ n2). split.
    + by rewrite Ha2, Ha1, <- app_assoc.
    + by apply Forall_app.
Qed.

(** X18. A guard that was never sealed detects no replacement: its
    scan skips every target that resolves, appends no [replaced] and no
    restore alert, and writes to no object. *)
Theorem unsealed_guard_reports_no_replacement w s :
  baseline s = ∅ ->
  (scan w s).1 = w ∧
  ∃ new, alerts (scan w s).2 = alerts s ++ new ∧
         Forall (λ a, is_replaced a = false ∧ is_restore a = false) new.
Proof.
  intros Hb. unfold _scan_once.
  destruct (scan_targets_unsealed (targets s) w s Hb)
    as (Hw & n1 & Ha1 & Hf1).
  destruct (scan_targets sha256 (w, s) (targets s)) as [w1 s1].
  simpl in *. subst w1. split; [done|].
  destruct (scan_meta_path_frame w s1) as (_ & n2 & Ha2 & Hf2).
  destruct (scan_env_frame w (scan_meta_path w s1)) as (_ & n3 & Ha3 & Hf3).
  exists (n1 ++ n2 ++ n3). split.
  - by rewrite Ha3, Ha2, Ha1, <- !app_assoc.
  - rewrite !Forall_app. repeat split; [done|..].
    + eapply Forall_impl; [exact Hf2|]. intros a [Ha _]. by destruct a.
    + eapply Forall_impl; [exact Hf3|]. intros a Ha. by destruct a.
Qed.

(** *** [main] *)

Lemma seal_loop_raise w ts : ∀ s s' e,
  seal_loop sha256 w ts s = (s', Some e) ->
  ∃ sealed d rest,
    ts = sealed ++ d :: rest ∧
    (∀ t, t ∈ sealed -> ∃ r, _resolve_dotted w t = Ok r) ∧
    _resolve_dotted w d = Raise e.
Proof.
  induction ts as [|t ts IH]; intros s s' e H; simpl in H; [done|].
  destruct (_resolve_dotted w t) as [[[[c v] lab] a]|e'] eqn:Hres.
  - apply IH in H as (sealed & d & rest & -> & Hok & Hr).
    exists (t :: sealed), d, rest. split; [done|]. split; [|done].
    intros x Hx. apply elem_of_cons in Hx as [->|Hx]; [by eauto|by auto].
  - injection H as _ <-. exists [], t, ts. split; [done|]. split; [|done].
    intros x Hx. by inversion Hx.
Qed.

Lemma seal_loop_all_resolve w ts : ∀ s,
  (∀ d, d ∈ ts -> ∃ r, _resolve_dotted w d = Ok r) ->
  (seal_loop sha256 w ts s).2 = None.
Proof.
  induction ts as [|t ts IH]; intros s H; simpl; [done|].
  destruct (H t) as [[[[c v] lab] a] Hres]; [by left|].
  rewrite Hres. apply IH. intros d Hd. apply H. by right.
Qed.

(** X19. When one of the watched names does not resolve at start-up,
    [main] ends with the exception of the first such name in the watch
    list (the names before it resolve): the guarded program is not run,
    nothing is scanned, and no report is written. *)
Theorem main_stops_when_seal_fails w a t0 t1 d e :
  d ∈ parse_watch (arg_watch a) ->
  _resolve_dotted w d = Raise e ->
  let m := main sha256 abspath run_path w a t0 t1 in
  main_events m = [] ∧ main_world m = w ∧ alerts (main_guard m) = [] ∧
  ∃ sealed d' rest e',
    parse_watch (arg_watch a) = sealed ++ d' :: rest ∧
    (∀ t, t ∈ sealed -> ∃ r, _resolve_dotted w t = Ok r) ∧
    _resolve_dotted w d' = Raise e' ∧
    main_exit m = Crash (repr_exn e').
Proof.
  intros Hd Hres. unfold main, seal. simpl.
  destruct (seal_loop sha256 w _ _) as [g [e'|]] eqn:Hseal.
  - destruct (seal_loop_entries _ _ _ _ _ Hseal)
      as (_&_&_&_&_&Hal&_). simpl in *.
    apply seal_loop_raise in Hseal as (sealed & d' & rest & Heq & Hok & Hr').
    repeat split; try done. by exists sealed, d', rest, e'.
  - apply seal_loop_entries in Hseal as (_&_&_&_&_&_&_&_&Hin).
    destruct (Hin eq_refl d Hd) as (c & v & lab & at_ & Hok & _).
    congruence.
Qed.

Lemma run_result_by_outcome w s path args t0 t1 :
  end_result (run_guard w s path args t0 t1)
  = match program_outcome sha256 run_path w s path args with
    | Completed => Returns 0
    | SystemExit code =>
        match exit_status code with
        | Ok rc => Returns rc
        | Raise e => Raises (repr_exn e)
        end
    | Failed _ => Returns 1
    | Interrupted b => Raises b
    end.
Proof.
  unfold run, program_outcome, entry_world, run_try.
  set (w0 := set_argv _ w).
  destruct (Qlt_le_dec 0 (interval s)).
  - destruct (_scan_once sha256 w0 s) as [wa sa]; simpl.
    destruct (run_path path wa) as [wb ob]; simpl.
    destruct ob as [|code|e|b]; simpl; try reflexivity.
    + destruct (_scan_once sha256 wb sa) as [wc sc]; reflexivity.
    + by destruct (exit_status code).
  - destruct (run_path path w0) as [wb ob]; simpl.
    destruct ob as [|code|e|b]; simpl; try reflexivity.
    + destruct (_scan_once sha256 wb s) as [wc sc]; reflexivity.
    + by destruct (exit_status code).
Qed.

(** X20. When every watched name resolves at start-up, [main] seals,
    runs the program once, writes the report once, and ends the process
    with the status of [run]: the integer the program gave to
    [sys.exit], 1 after an exception, 0 after a normal end; an
    exception [run] lets through ends the process as it is. *)
Theorem main_exit_status w a t0 t1 :
  (∀ d, d ∈ parse_watch (arg_watch a) -> ∃ r, _resolve_dotted w d = Ok r) ->
  let m := main sha256 abspath run_path w a t0 t1 in
  let g := (seal sha256 w
              (__init__ w (parse_watch (arg_watch a))
                 (negb (Z.eqb (arg_auto_restore a) 0)) (arg_interval a))).1 in
  List.filter is_run_path (main_events m)
    = [RunPath (arg_target a) "__main__"] ∧
  length (List.filter is_json_dump (main_events m)) = 1 ∧
  match program_outcome sha256 run_path w g (arg_target a) (arg_args a) with
  | Completed => main_exit m = Exit 0
  | SystemExit ExitNone => main_exit m = Exit 0
  | SystemExit (ExitInt n) => main_exit m = Exit n
  | SystemExit (ExitObject truthy as_int) =>
      main_exit m = if truthy then
                      match as_int with
                      | Ok n => Exit n
                      | Raise e => Crash (repr_exn e)
                      end
                    else Exit 0
  | Failed _ => main_exit m = Exit 1
  | Interrupted b => main_exit m = Crash b
  end.
Proof.
  intros Hall. unfold main, seal.
  pose proof (seal_loop_all_resolve w _
                (__init__ w (parse_watch (arg_watch a))
                   (negb (Z.eqb (arg_auto_restore a) 0)) (arg_interval a))
                Hall) as Hnone.
  simpl in Hnone.
  destruct (seal_loop sha256 w _ _) as [g r]. simpl in Hnone. subst r.
  simpl.
  destruct (run_events sha256 abspath run_path w g (arg_target a)
              (arg_args a) t0 t1) as (rep & _ & _ & Hev).
  rewrite Hev, run_result_by_outcome. clear Hev.
  set (o := program_outcome sha256 run_path w g (arg_target a) (arg_args a)).
  assert (Hh1 : List.filter is_run_path (handler_events o) = []).
  { apply filter_none. eapply Forall_impl; [apply handler_events_prints|].
    by intros ? [? _]. }
  assert (Hh2 : List.filter is_json_dump (handler_events o) = []).
  { apply filter_none. eapply Forall_impl; [apply handler_events_no_scan|].
    by intros ? [_ ?]. }
  rewrite !List.filter_app. simpl.
  split; [|split].
  - destruct (Qlt_le_dec 0 (interval g)); destruct o; simpl in *;
      rewrite ?List.filter_app, ?Hh1; simpl;
      try destruct (Qlt_le_dec 0 (interval g)); done.
  - destruct (Qlt_le_dec 0 (interval g)); destruct o; simpl in *;
      rewrite ?List.filter_app, ?Hh2; simpl;
      try destruct (Qlt_le_dec 0 (interval g)); done.
  - destruct o as [|[|n|[] [n|e]]|e|b]; done.
Qed.

(** *** The command line: watch list and argument vector *)

Lemma str_split_parts_no_sep sep s : ∀ p,
  p ∈ str_split sep s -> contains sep p = false.
Proof.
  induction s as [|c s IH]; intros p Hp; simpl in *.
  - apply list_elem_of_singleton in Hp as ->. done.
  - destruct (Ascii.eqb c sep) eqn:Hc.
    + apply elem_of_cons in Hp as [->|Hp]; [done|by apply IH].
    + destruct (str_split sep s) as [|p0 ps] eqn:Hs.
      * apply list_elem_of_singleton in Hp as ->. simpl. by rewrite Hc.
      * apply elem_of_cons in Hp as [->|Hp].
        -- simpl. rewrite Hc. simpl. apply IH. by left.
        -- apply IH. by right.
Qed.

Lemma contains_lstrip c s : contains c s = false -> contains c (lstrip s) = false.
Proof.
  induction s as [|a s IH]; simpl; [done|].
  intros H. apply orb_false_iff in H as [Ha Hs].
  destruct (is_space a); [by apply IH|]. simpl. by rewrite Ha, Hs.
Qed.

Lemma contains_rstrip c s : contains c s = false -> contains c (rstrip s) = false.
Proof.
  induction s as [|a s IH]; simpl; [done|].
  intros H. apply orb_false_iff in H as [Ha Hs]. specialize (IH Hs).
  destruct (rstrip s) as [|b r].
  - destruct (is_space a); simpl; [done|]. by rewrite Ha.
  - simpl in *. by rewrite Ha, IH.
Qed.

Lemma rstrip_idem s : rstrip (rstrip s) = rstrip s.
Proof.
  induction s as [|a s IH]; simpl; [done|].
  destruct (rstrip s) as [|b r] eqn:Hr.
  - destruct (is_space a) eqn:Ha; simpl; [done|]. by rewrite Ha.
  - change (rstrip (String a (String b r)))
      with (match rstrip (String b r) with
            | EmptyString =>
                if is_space a then EmptyString else String a EmptyString
            | x => String a x
            end).
    by rewrite IH.
Qed.

Lemma lstrip_head s :
  lstrip s = "" ∨ ∃ c r, lstrip s = String c r ∧ is_space c = false.
Proof.
  induction s as [|a s IH]; simpl; [by left|].
  destruct (is_space a) eqn:Ha; [done|]. right. by eauto.
Qed.

Lemma rstrip_head c r :
  is_space c = false -> ∃ r', rstrip (String c r) = String c r'.
Proof.
  intros Hc. simpl. destruct (rstrip r); rewrite ?Hc; by eauto.
Qed.

Lemma strip_idem x : strip (strip x) = strip x.
Proof.
  unfold strip.
  destruct (lstrip_head x) as [->|(c & r & -> & Hc)]; [done|].
  destruct (rstrip_head c r Hc) as [r' Hr']. rewrite Hr'.
  simpl lstrip. rewrite Hc, <- Hr'. apply rstrip_idem.
Qed.

(** X21. The watch list made from [--watch] holds no empty name, no
    name with a comma, and no name with whitespace at either end:
    empty items are dropped and the others are stripped. *)
Theorem parse_watch_targets watch t :
  t ∈ parse_watch watch ->
  t ≠ "" ∧ contains "," t = false ∧ strip t = t.
Proof.
  unfold parse_watch. rewrite list_elem_of_In, in_map_iff.
  intros (x & <- & Hx). apply filter_In in Hx as [Hx Hne].
  apply negb_true_iff, String.eqb_neq in Hne.
  split; [done|]. split; [|apply strip_idem].
  apply contains_rstrip, contains_lstrip.
  eapply str_split_parts_no_sep. by apply list_elem_of_In.
Qed.

(** X23. The sealed hook list and environment are those of the moment
    the guard was constructed: [seal], in whatever process state it
    runs and whether or not it raises, does not take them again, logs
    nothing and leaves the target list as given. *)
Theorem seal_keeps_construction_snapshot w w' ts ar i :
  let s := (seal sha256 w' (__init__ w ts ar i)).1 in
  meta_path0 s = meta_path w ∧ env0 s = environ w ∧
  alerts s = [] ∧ targets s = ts.
Proof.
  intros s. subst s. unfold seal.
  destruct (seal_loop sha256 w' _ _) as [g r] eqn:Hseal.
  apply seal_loop_entries in Hseal as (Ht&_&_&Hm&He&Hal&_). done.
Qed.

End Further.

(** ** The further properties on concrete inputs *)

Lemma seal_then_scan_quiet_witness :
  let s := Scenario.new_guard ["os.path.join"; "posixpath.join"] true 0 in
  _scan_once Scenario.digest Scenario.world0 s = (Scenario.world0, s).
Proof.
  intros s.
  apply (seal_then_scan_quiet Scenario.digest Scenario.world0
           ["os.path.join"; "posixpath.join"] true 0 s).
  vm_compute. reflexivity.
Defined.

Lemma resolve_rejects_undotted_witness :
  _resolve_dotted Scenario.world0 "open"
  = Raise (ValueError "invalid dotted name: open").
Proof.
  apply (resolve_rejects_undotted Scenario.world0 "open"). reflexivity.
Defined.


Lemma resolve_missing_attribute_witness :
  _resolve_dotted Scenario.world0 "posixpath.split"
  = Raise (AttributeError "module" "split").
Proof.
  apply (resolve_missing_attribute Scenario.world0 "posixpath" "split"
           2%positive).
  - reflexivity.
  - reflexivity.
  - vm_compute. reflexivity.
  - vm_compute. reflexivity.
Defined.

Lemma nonpositive_interval_is_zero_witness :
  (-1 <= 0)%Q ∧
  __init__ Scenario.world0 ["posixpath.join"] true (-1)
  = __init__ Scenario.world0 ["posixpath.join"] true 0.
Proof.
  assert (H : (-1 <= 0)%Q) by (vm_compute; discriminate).
  split; [exact H|].
  exact (proj1 (nonpositive_interval_is_zero Scenario.digest
                  Scenario.cwd_abspath Scenario.patch_join Scenario.world0
                  ["posixpath.join"] true (-1) "t.py" "" 0 1 H)).
Defined.

Lemma run_without_auto_restore_keeps_heap_witness :
  let s := Scenario.new_guard ["posixpath.join"] false 0 in
  let entry := entry_world Scenario.digest Scenario.world0 s "t.py" "" in
  heap entry = heap Scenario.world0 ∧
  heap (end_world (run Scenario.digest Scenario.cwd_abspath
                     Scenario.patch_join Scenario.world0 s "t.py" "" 0 1))
  = heap (Scenario.patch_join "t.py" entry).1.
Proof.
  intros s.
  apply (run_without_auto_restore_keeps_heap Scenario.digest
           Scenario.cwd_abspath Scenario.patch_join Scenario.world0 s
           "t.py" "" 0 1).
  vm_compute. reflexivity.
Defined.

Lemma sealed_target_has_original_witness :
  let s := (seal Scenario.digest Scenario.world0
              (__init__ Scenario.world0 ["posixpath.join"] true 0)).1 in
  let s' := (_scan_once Scenario.digest
               (Scenario.rebind 2 "join" 4 Scenario.world0) s).2 in
  ∃ v, original_of s' "posixpath.join" = Ok v.
Proof.
  apply (sealed_target_has_original Scenario.digest Scenario.world0
           ["posixpath.join"] true 0
           (Scenario.rebind 2 "join" 4 Scenario.world0) "posixpath.join").
  vm_compute. eexists. reflexivity.
Defined.

Lemma repr_tail_is_invisible_witness :
  _fingerprint_callable Scenario.digest
    (with_repr (Ok (Scenario.eighty +:+ "3, 24]")) Scenario.long_list)
  = _fingerprint_callable Scenario.digest Scenario.long_list.
Proof.
  apply (repr_tail_is_invisible Scenario.digest Scenario.long_list
           (Scenario.eighty +:+ "2, 23]") (Scenario.eighty +:+ "3, 24]")).
  - reflexivity.
  - vm_compute. reflexivity.
Defined.

Lemma function_hash_reads_code_only_witness :
  fp_hash (_fingerprint_callable Scenario.digest Scenario.renamed_join)
  = fp_hash (_fingerprint_callable Scenario.digest (Scenario.heap0 3)).
Proof.
  refine (proj2 (function_hash_reads_code_only Scenario.digest
                   (Scenario.heap0 3) Scenario.renamed_join
                   Scenario.join_code _ _ _ _)).
  - reflexivity.
  - reflexivity.
  - vm_compute. eexists. reflexivity.
  - vm_compute. eexists. reflexivity.
Defined.

Lemma restored_target_is_quiet_witness :
  let s := Scenario.new_guard ["posixpath.join"] true 0 in
  let w := Scenario.rebind 2 "join" 4 Scenario.world0 in
  scan_target Scenario.digest
    (scan_target Scenario.digest (w, s) "posixpath.join") "posixpath.join"
  = scan_target Scenario.digest (w, s) "posixpath.join".
Proof.
  intros s w.
  apply (restored_target_is_quiet Scenario.digest w s "posixpath.join"
           2%positive 4%positive "<module 'posixpath'>" "join"
           Scenario.join_entry 3%positive).
  - vm_compute. reflexivity.
  - vm_compute. reflexivity.
  - vm_compute. reflexivity.
  - vm_compute. discriminate.
  - vm_compute. reflexivity.
  - vm_compute. reflexivity.
  - refine (bool_decide_unpack _ _); vm_compute; exact I.
  - vm_compute. reflexivity.
Defined.

Lemma scan_reports_resolve_error_once_witness :
  let s := Scenario.new_guard ["os.path.join"; "posixpath.join"] true 0 in
  let w := Scenario.rebind 2 "join" 4 Scenario.world_without_os in
  ∃ text,
    _scan_once Scenario.digest w s
    = (let '(w3, s3) :=
         scan_targets Scenario.digest
           (w, append_alert (ResolveError "os.path.join" text) s)
           ["posixpath.join"] in
       (w3, scan_env w3 (scan_meta_path w3 s3))) ∧
    ∃ new,
      alerts (_scan_once Scenario.digest w s).2 = alerts s ++ new ∧
      List.filter (is_resolve_error_for "os.path.join") new
      = [ResolveError "os.path.join" text] ∧
      List.filter (is_replaced_for "os.path.join") new = [].
Proof.
  intros s w.
  apply (scan_reports_resolve_error_once Scenario.digest w s
           [] "os.path.join" ["posixpath.join"] w s
           (ModuleNotFoundError "os")).
  - vm_compute. reflexivity.
  - refine (bool_decide_unpack _ _); vm_compute; exact I.
  - refine (bool_decide_unpack _ _); vm_compute; exact I.
  - reflexivity.
  - vm_compute. reflexivity.
Defined.

(** The same scan, in full: the first target does not resolve, the
    second is reported and restored. *)
Lemma scan_goes_on_after_resolve_error :
  let s := Scenario.new_guard ["os.path.join"; "posixpath.join"] true 0 in
  let w := Scenario.rebind 2 "join" 4 Scenario.world_without_os in
  alerts (_scan_once Scenario.digest w s).2
  = [ResolveError "os.path.join" (repr_exn (ModuleNotFoundError "os"));
     Replaced "posixpath.join" (be_fp Scenario.join_entry)
       (_fingerprint_callable Scenario.digest (heap w 4));
     RestoreOk "posixpath.join"].
Proof. vm_compute. reflexivity. Qed.

Lemma unsealed_guard_reports_no_replacement_witness :
  let s := __init__ Scenario.world0 ["posixpath.join"] true 0 in
  let w := Scenario.rebind 2 "join" 4 Scenario.world0 in
  (_scan_once Scenario.digest w s).1 = w ∧
  ∃ new, alerts (_scan_once Scenario.digest w s).2 = alerts s ++ new ∧
         Forall (λ a, is_replaced a = false ∧ is_restore a = false) new.
Proof.
  intros s w.
  apply (unsealed_guard_reports_no_replacement Scenario.digest w s).
  reflexivity.
Defined.

Lemma main_stops_when_seal_fails_witness :
  let m := main Scenario.digest Scenario.cwd_abspath Scenario.patch_join
             Scenario.world0 Scenario.cli_unknown_module 0 1 in
  main_events m = [] ∧ main_world m = Scenario.world0 ∧
  alerts (main_guard m) = [] ∧
  ∃ sealed d' rest e',
    parse_watch (arg_watch Scenario.cli_unknown_module)
      = sealed ++ d' :: rest ∧
    (∀ t, t ∈ sealed -> ∃ r, _resolve_dotted Scenario.world0 t = Ok r) ∧
    _resolve_dotted Scenario.world0 d' = Raise e' ∧
    main_exit m = Crash (repr_exn e').
Proof.
  apply (main_stops_when_seal_fails Scenario.digest Scenario.cwd_abspath
           Scenario.patch_join Scenario.world0 Scenario.cli_unknown_module
           0 1 "nosuch.attr" (ModuleNotFoundError "nosuch")).
  - refine (bool_decide_unpack _ _); vm_compute; exact I.
  - vm_compute. reflexivity.
Defined.

Lemma main_exit_status_witness :
  main_exit (main Scenario.digest Scenario.cwd_abspath
               Scenario.patch_join_and_exit Scenario.world0
               Scenario.cli_join 0 1)
  = Exit 7.
Proof.
  assert (Hall : ∀ d, d ∈ parse_watch (arg_watch Scenario.cli_join) ->
                      ∃ r, _resolve_dotted Scenario.world0 d = Ok r).
  { assert (Hp : parse_watch (arg_watch Scenario.cli_join)
                 = ["posixpath.join"; "os.path.join"])
      by (vm_compute; reflexivity).
    rewrite Hp. intros d Hd. apply elem_of_cons in Hd as [->|Hd].
    - exists (2%positive, 3%positive, "<module 'posixpath'>", "join").
      vm_compute. reflexivity.
    - apply list_elem_of_singleton in Hd as ->.
      exists (2%positive, 3%positive, "<module 'posixpath'>", "join").
      vm_compute. reflexivity. }
  destruct (main_exit_status Scenario.digest Scenario.cwd_abspath
              Scenario.patch_join_and_exit Scenario.world0
              Scenario.cli_join 0 1 Hall) as (_ & _ & Hm).
  exact Hm.
Defined.

Lemma parse_watch_targets_witness :
  "os.path.join" ∈ parse_watch " posixpath.join , ,os.path.join" ∧
  "os.path.join" ≠ "" ∧ contains "," "os.path.join" = false ∧
  strip "os.path.join" = "os.path.join".
Proof.
  assert (H : "os.path.join" ∈ parse_watch " posixpath.join , ,os.path.join")
    by (refine (bool_decide_unpack _ _); vm_compute; exact I).
  split; [exact H|].
  exact (parse_watch_targets " posixpath.join , ,os.path.join"
           "os.path.join" H).
Defined.
